(** * Hyperfox: the interception proxy ([proxy/main.go]) and its [save] writers

    A shallow embedding of the Go sources.  The functions of the Go standard
    library that the sources call ([strings.Trim], [path.Ext],
    [strings.SplitN], [fmt.Sprintf], [http.Header], [io.Copy],
    [io.MultiWriter]) are modelled first, each after its documented
    behaviour; the code of the repository follows, function by function,
    under the names it has in the sources. *)

From Stdlib Require Import ZArith Ascii String List Lia Bool.
From stdpp Require Import base option list gmap strings.

Open Scope string_scope.
Open Scope list_scope.

(** ** Results of code that may panic *)

Inductive result (A : Type) : Type :=
| Ok (a : A)
| Panic (msg : string).
Arguments Ok {A} a.
Arguments Panic {A} msg.

Definition nilDeref : string := "invalid memory address or nil pointer dereference".

(** ** Package [strings] and package [path] *)

Module GoStrings.

Fixpoint inCutset (c : ascii) (cutset : string) : bool :=
  match cutset with
  | EmptyString => false
  | String d cs => if Ascii.eqb c d then true else inCutset c cs
  end.

Fixpoint TrimLeft (s cutset : string) : string :=
  match s with
  | EmptyString => EmptyString
  | String c s' => if inCutset c cutset then TrimLeft s' cutset else s
  end.

Fixpoint TrimRight (s cutset : string) : string :=
  match s with
  | EmptyString => EmptyString
  | String c s' =>
      match TrimRight s' cutset with
      | EmptyString => if inCutset c cutset then EmptyString else String c EmptyString
      | r => String c r
      end
  end.

(** [strings.Trim(s, cutset)]: [s] without the leading and trailing
    characters that occur in [cutset]. *)
Definition Trim (s cutset : string) : string :=
  TrimRight (TrimLeft s cutset) cutset.

(** [strings.SplitN(s, sep, 2)[0]] for a one-character separator: the part
    of [s] before the first [sep], all of [s] when there is none. *)
Fixpoint beforeFirst (sep : ascii) (s : string) : string :=
  match s with
  | EmptyString => EmptyString
  | String c s' => if Ascii.eqb c sep then EmptyString else String c (beforeFirst sep s')
  end.

Fixpoint afterFirst (sep : ascii) (s : string) : option string :=
  match s with
  | EmptyString => None
  | String c s' => if Ascii.eqb c sep then Some s' else afterFirst sep s'
  end.

(** [strings.SplitN(s, sep, 2)]: at most two pieces. *)
Definition SplitN2 (s : string) (sep : ascii) : list string :=
  match afterFirst sep s with
  | None => [s]
  | Some rest => [beforeFirst sep s; rest]
  end.

Fixpoint contains (c : ascii) (s : string) : bool :=
  match s with
  | EmptyString => false
  | String d s' => if Ascii.eqb d c then true else contains c s'
  end.

End GoStrings.

Module GoPath.

(** The loop of [path.Ext]: walk from the last byte towards the first,
    stop at a slash, return the suffix that starts at the first dot met. *)
Fixpoint extScan (revPrefix : list ascii) (suffix : string) : string :=
  match revPrefix with
  | [] => EmptyString
  | c :: r =>
      if Ascii.eqb c "/" then EmptyString
      else if Ascii.eqb c "." then String c suffix
      else extScan r (String c suffix)
  end.

Definition Ext (p : string) : string :=
  extScan (rev (list_ascii_of_string p)) EmptyString.

End GoPath.

(** ** [http.Header] *)

Module GoHttp.

Abbreviation Header := (gmap string (list string)).

Definition isLower (c : ascii) : bool :=
  (97 <=? nat_of_ascii c)%nat && (nat_of_ascii c <=? 122)%nat.
Definition isUpper (c : ascii) : bool :=
  (65 <=? nat_of_ascii c)%nat && (nat_of_ascii c <=? 90)%nat.
Definition toUpper (c : ascii) : ascii :=
  if isLower c then ascii_of_nat (nat_of_ascii c - 32) else c.
Definition toLower (c : ascii) : ascii :=
  if isUpper c then ascii_of_nat (nat_of_ascii c + 32) else c.

Fixpoint canonLoop (upper : bool) (s : string) : string :=
  match s with
  | EmptyString => EmptyString
  | String c s' =>
      String (if upper then toUpper c else toLower c)
             (canonLoop (Ascii.eqb c "-") s')
  end.

Definition isDigit (c : ascii) : bool :=
  (48 <=? nat_of_ascii c)%nat && (nat_of_ascii c <=? 57)%nat.

(** [validHeaderFieldByte]: the bytes of a token, which are the letters,
    the digits and fifteen marks; a space is none of them. *)
Definition validHeaderFieldByte (c : ascii) : bool :=
  isDigit c || isLower c || isUpper c
  || GoStrings.inCutset c "!#$%&'*+-.^_`|~".

Fixpoint validHeaderField (s : string) : bool :=
  match s with
  | EmptyString => true
  | String c s' => validHeaderFieldByte c && validHeaderField s'
  end.

(** [textproto.CanonicalMIMEHeaderKey]: the first letter and every letter
    after a hyphen in upper case, the other letters in lower case; a key
    that holds a space or another byte that is not valid in a header
    field name is returned as it is. *)
Definition CanonicalMIMEHeaderKey (s : string) : string :=
  if validHeaderField s then canonLoop true s else s.

(** [h.Del(key)], [h.Add(key, value)] and [h.Get(key)] all canonicalise
    the key they are given before they touch the map. *)
Definition Del (key : string) (h : Header) : Header :=
  delete (CanonicalMIMEHeaderKey key) h.

Definition Values (key : string) (h : Header) : list string :=
  default [] (h !! key).

Definition Add (key value : string) (h : Header) : Header :=
  let k := CanonicalMIMEHeaderKey key in
  <[k := Values k h ++ [value]]> h.

Definition Get (key : string) (h : Header) : string :=
  match Values (CanonicalMIMEHeaderKey key) h with
  | [] => EmptyString
  | v :: _ => v
  end.

(** A header map as the [http] package itself builds it: keyed by
    canonical names. *)
Definition canonicalKeys (h : Header) : Prop :=
  ∀ k, is_Some (h !! k) → CanonicalMIMEHeaderKey k = k.

End GoHttp.

(** ** Package [io]: writers, [io.MultiWriter], [io.Copy] *)

Module GoIo.

Abbreviation bytes := (list Byte.byte).
Abbreviation error := string.

Definition ErrShortWrite : error := "short write".

(** A destination of bytes (a file, a socket): what it has accepted so
    far, how many more bytes it accepts before its writes start to fail
    ([None]: no limit), and how often it has been closed. *)
Record Dest : Type := mkDest {
  written : bytes;
  room : option nat;
  closed : nat
}.

Definition newDest (room : option nat) : Dest := mkDest [] room 0.

(** [d.Write(p)]: all of [p] while there is room for it; otherwise the
    part that fits, and an error. *)
Definition destWrite (p : bytes) (d : Dest) : Dest * (nat * option error) :=
  match room d with
  | None => (mkDest (written d ++ p) None (closed d), (length p, None))
  | Some r =>
      if (length p <=? r)%nat
      then (mkDest (written d ++ p) (Some (r - length p)) (closed d), (length p, None))
      else (mkDest (written d ++ take r p) (Some 0) (closed d), (r, Some "write failed"))
  end.

Definition destClose (d : Dest) : Dest :=
  mkDest (written d) (room d) (S (closed d)).

Section Writers.
(** [St] is the state the writers live in, [Target] names one of them,
    [write t p] is [t.Write(p)]. *)
Context {St Target : Type}.
Variable write : Target → bytes → St → St * (nat * option error).

(** [multiWriter.Write]: the writers in order, returning at the first
    error or short write. *)
Fixpoint multiWrite (writers : list Target) (p : bytes) (st : St)
  : St * (nat * option error) :=
  match writers with
  | [] => (st, (length p, None))
  | w :: ws =>
      let '(st', (n, err)) := write w p st in
      match err with
      | Some e => (st', (n, Some e))
      | None =>
          if (n =? length p)%nat then multiWrite ws p st'
          else (st', (n, Some ErrShortWrite))
      end
  end.

(** The loop of [io.Copy(dst, src)] (a multi-writer is no [io.ReaderFrom],
    so this loop is what runs).  [chunks] are the byte slices the
    successive [src.Read] calls return before [EOF]; the result holds
    the chunks left unread, the count of bytes written and the error. *)
Fixpoint Copy (dstWrite : bytes → St → St * (nat * option error))
    (chunks : list bytes) (st : St) : St * (list bytes * (nat * option error)) :=
  match chunks with
  | [] => (st, ([], (0%nat, None)))
  | p :: rest =>
      if (0 <? length p)%nat then
        let '(st', (nw, ew)) := dstWrite p st in
        match ew with
        | Some e => (st', (rest, (nw, Some e)))
        | None =>
            if (nw =? length p)%nat then
              let '(st'', (rest', (n, err))) := Copy dstWrite rest st' in
              (st'', (rest', ((nw + n)%nat, err)))
            else (st', (rest, (nw, Some ErrShortWrite)))
        end
      else Copy dstWrite rest st
  end.
End Writers.

(** [io.WriteCloser]: [W] is the state the objects live in, [Ref] a
    reference to one of them.  The error of [Close] is never looked at
    by the sources and is left out. *)
Class WriteCloser (W Ref : Type) : Type := {
  sinkWrite : Ref → bytes → W → W * (nat * option error);
  sinkClose : Ref → W → W
}.

End GoIo.

(** ** Package [os], as far as the sources use it *)

Module GoOs.
Import GoIo.

(** [os.MkdirAll(dir, perm)] returns an error or [nil]; [os.Create(name)]
    returns an open file, or a [nil] file when it fails. *)
Class OS (W File : Type) `{!WriteCloser W File} : Type := {
  MkdirAll : string → W → W * option error;
  Create : string → W → W * option File
}.

End GoOs.

(** ** Package [net/http]: requests, responses, the response writer *)

Module URL.
Record t : Type := mk {
  Scheme : string;
  Opaque : string;
  Host : string;
  Path : string;
  RawQuery : string;
  Fragment : string
}.
End URL.

Module Body.
(** An [io.ReadCloser]: the chunks it still has to deliver and the number
    of [Close] calls it has seen. *)
Record t : Type := mk {
  unread : list GoIo.bytes;
  closed : nat
}.
End Body.

Module Request.
Record t : Type := mk {
  Method : string;
  URL : option URL.t;                (* *url.URL, may be nil *)
  Proto : string;
  ProtoMajor : Z;
  ProtoMinor : Z;
  Header : GoHttp.Header;
  Body : option Body.t;
  ContentLength : Z;
  TransferEncoding : list string;
  Close : bool;
  Host : string;
  Trailer : GoHttp.Header;
  RemoteAddr : string;
  RequestURI : string
}.
End Request.

Module Response.
Record t : Type := mk {
  Status : string;
  StatusCode : Z;
  Proto : string;
  ProtoMajor : Z;
  ProtoMinor : Z;
  Header : GoHttp.Header;
  Body : option Body.t;              (* io.ReadCloser, may be nil *)
  ContentLength : Z;
  TransferEncoding : list string;
  Close : bool;
  Trailer : GoHttp.Header;
  Request : option Request.t         (* *http.Request, may be nil *)
}.

Definition withBody (b : option Body.t) (r : t) : t :=
  mk (Status r) (StatusCode r) (Proto r) (ProtoMajor r) (ProtoMinor r)
     (Header r) b (ContentLength r) (TransferEncoding r) (Close r)
     (Trailer r) (Request r).
End Response.

(** ** Package [fmt]: the verb [%0wd], and the clock reading of package [time] *)

Module GoFmt.

Definition digit (n : Z) : ascii := ascii_of_nat (48 + Z.to_nat n).

(** The [w] low-order decimal digits of [n], most significant first. *)
Fixpoint fixedWidth (w : nat) (n : Z) : string :=
  match w with
  | O => EmptyString
  | S w' => fixedWidth w' (n / 10) +:+ String (digit (n mod 10)) EmptyString
  end.

(** The number of decimal digits of [n >= 0] ([1] for [0]); the fuel bounds
    the recursion and [Z.to_nat (Z.log2 n)] is always enough of it. *)
Fixpoint countDigits (fuel : nat) (n : Z) : nat :=
  match fuel with
  | O => 1
  | S f => if (n <? 10)%Z then 1 else S (countDigits f (n / 10))
  end.

(** [fmt.Sprintf("%0wd", n)]: at least [w] characters, zeros between the
    sign and the digits. *)
Definition padZero (w : nat) (n : Z) : string :=
  if (n <? 0)%Z
  then String "-" (fixedWidth (Nat.max (w - 1) (countDigits (Z.to_nat (Z.log2 (- n))) (- n))) (- n))
  else fixedWidth (Nat.max w (countDigits (Z.to_nat (Z.log2 n)) n)) n.

End GoFmt.

Module Time.
(** [time.Now().Local()], read field by field. *)
Record t : Type := mk {
  Year : Z;
  Month : Z;
  Day : Z;
  Hour : Z;
  Minute : Z;
  Second : Z;
  Nanosecond : Z
}.
End Time.

(** ** [http.ResponseWriter] *)

Module ResponseWriter.
(** The client side of an exchange: the header map [Header()] hands out,
    the informational status codes (1xx) that went out, the final status
    and the headers that went out with it (once), and the connection the
    body is written to. *)
Record t : Type := mk {
  header : GoHttp.Header;
  interim : list Z;
  sent : option (Z * GoHttp.Header);
  conn : GoIo.Dest
}.

(** [checkWriteHeaderCode]: a status code has three digits. *)
Definition validCode (code : Z) : bool := (100 <=? code)%Z && (code <=? 999)%Z.

(** The codes that announce a final status to come: 1xx, but not
    [101 Switching Protocols]. *)
Definition informational (code : Z) : bool :=
  (100 <=? code)%Z && (code <=? 199)%Z && negb (code =? 101)%Z.

(** The status line and the headers go out, for good. *)
Definition commit (code : Z) (w : t) : t :=
  mk (header w) (interim w) (Some (code, header w)) (conn w).

(** [w.WriteHeader(code)].  A call after the final status has gone out is
    superfluous: it is logged and nothing else happens.  Otherwise a code
    outside 100..999 makes the call panic, with a message that ends in
    the code in decimal; an informational code is sent at once and
    leaves the final status open; any other code is the final status. *)
Definition WriteHeader (code : Z) (w : t) : result t :=
  match sent w with
  | Some _ => Ok w
  | None =>
      if negb (validCode code)
      then Panic ("invalid WriteHeader code " +:+ GoFmt.padZero 0 code)
      else if informational code
      then Ok (mk (header w) (interim w ++ [code]) None (conn w))
      else Ok (commit code w)
  end.

(** [w.Write(p)]: it starts with [w.WriteHeader(http.StatusOK)] when no
    final status has gone out, a call that cannot panic. *)
Definition Write (p : GoIo.bytes) (w : t) : t * (nat * option GoIo.error) :=
  let w1 := match sent w with
            | Some _ => w
            | None => commit 200 w
            end in
  let '(c, r) := GoIo.destWrite p (conn w1) in
  (mk (header w1) (interim w1) (sent w1) c, r).

Definition fresh (room : option nat) : t := mk ∅ [] None (GoIo.newDest room).
End ResponseWriter.

(** ** Package [proxy] ([proxy/main.go]) *)

Module Proxy.
Import GoHttp GoIo.

(** The package variables [ArchiveDir] and [ClientDir]. *)
Record Globals : Type := mkGlobals {
  ArchiveDir : string;
  ClientDir : string
}.

Definition initial : Globals := mkGlobals "archive" "client".

(** [string(os.PathSeparator)], on Unix. *)
Definition PS : string := "/".

(** *** [copyHeader] *)

(** [for k, _ := range dst { dst.Del(k) }], the keys coming up in the
    order [ks]; a key that an earlier deletion has removed is not
    produced by the [range]. *)
Fixpoint delLoop (ks : list string) (dst : Header) : Header :=
  match ks with
  | [] => dst
  | k :: ks' =>
      delLoop ks' (if decide (is_Some (dst !! k)) then Del k dst else dst)
  end.

(** [for _, v := range vv { dst.Add(k, v) }] *)
Fixpoint addValues (k : string) (vv : list string) (dst : Header) : Header :=
  match vv with
  | [] => dst
  | v :: vv' => addValues k vv' (Add k v dst)
  end.

(** [for k, vv := range src { ... }], the entries coming up in the
    order [kvs]. *)
Fixpoint addLoop (kvs : list (string * list string)) (dst : Header) : Header :=
  match kvs with
  | [] => dst
  | (k, vv) :: kvs' => addLoop kvs' (addValues k vv dst)
  end.

(** [copyHeader] under given iteration orders of its two [range] loops
    (Go leaves the order of a [range] over a map unspecified). *)
Definition copyHeaderIn (ks : list string) (kvs : list (string * list string))
    (dst : Header) : Header :=
  addLoop kvs (delLoop ks dst).

(** The orders the two [range] loops take in a run of the program: the
    keys of [dst] as the first loop meets them, the entries of [src] as
    the second does.  The language fixes neither, and the code has no
    say in them. *)
Class RangeOrder : Type := {
  rangeDst : Header → list string;
  rangeSrc : Header → list (string * list string)
}.

(** [copyHeader(dst, src)]; the result is the new content of [dst]. *)
Definition copyHeader `{!RangeOrder} (dst src : Header) : Header :=
  copyHeaderIn (rangeDst dst) (rangeSrc src) dst.

(** *** [ArchiveFile], [now], [ClientFile] *)

Section Paths.
(** [mimext.Ext], the extension lookup of package [mimext]. *)
Variable mimextExt : string → string.
Variable g : Globals.

Definition targetURL (res : Response.t) : result URL.t :=
  match Response.Request res with
  | None => Panic nilDeref
  | Some req =>
      match Request.URL req with
      | None => Panic nilDeref
      | Some u => Ok u
      end
  end.

Definition ArchiveFile (res : Response.t) : result string :=
  let contentType := Get "Content-Type" (Response.Header res) in
  match targetURL res with
  | Panic m => Panic m
  | Ok u =>
      let file := GoStrings.Trim (URL.Path u) "/" in
      let file := if String.eqb file "" then "index" else file in
      let file :=
        if String.eqb (GoPath.Ext file) ""
        then file +:+ "." +:+ mimextExt contentType
        else file in
      let file :=
        if String.eqb (Get "Content-Encoding" (Response.Header res)) "gzip"
        then file +:+ ".gz"
        else file in
      Ok (ArchiveDir g +:+ PS +:+ URL.Host u +:+ PS +:+ file)
  end.

Definition now (t : Time.t) : string :=
  let name :=
    GoFmt.padZero 4 (Time.Year t) +:+ GoFmt.padZero 2 (Time.Month t)
    +:+ GoFmt.padZero 2 (Time.Day t) +:+ "-"
    +:+ GoFmt.padZero 2 (Time.Hour t) +:+ GoFmt.padZero 2 (Time.Minute t)
    +:+ GoFmt.padZero 2 (Time.Second t) +:+ "-"
    +:+ GoFmt.padZero 9 (Time.Nanosecond t) in
  name +:+ ".bin".

(** [ClientFile]; [t] is the clock reading its call of [now] gets. *)
Definition ClientFile (t : Time.t) (res : Response.t) : result string :=
  match Response.Request res with
  | None => Panic nilDeref
  | Some req =>
      match Request.URL req with
      | None => Panic nilDeref
      | Some u =>
          let file := GoStrings.Trim (URL.Path u) "/" in
          let file := if String.eqb file "" then "index" else file in
          let clientAddr := GoStrings.SplitN2 (Request.RemoteAddr req) ":" in
          match clientAddr !! 0%nat with
          | None => Panic "index out of range"
          | Some addr0 =>
              Ok (ClientDir g +:+ PS +:+ addr0 +:+ PS +:+ URL.Host u
                  +:+ PS +:+ file +:+ PS +:+ now t)
          end
      end
  end.
End Paths.

(** *** [Workdir] *)

Definition Workdir {W File : Type} `{GoOs.OS W File} (dir : string) (w : W)
    : W * option error :=
  GoOs.MkdirAll dir w.

(** *** The hooks and the proxy *)

(** What the interceptor does, in program order. *)
Inductive Event (Ref : Type) : Type :=
| EvDirector (i : nat)
| EvCopyHeader
| EvWriteHeader (code : Z)
| EvWriter (i : nat) (wcloser : option Ref)
| EvLogger (i : nat)
| EvCopy
| EvBodyClose
| EvSinkClose (wcloser : Ref).
Arguments EvDirector {Ref} i.
Arguments EvCopyHeader {Ref}.
Arguments EvWriteHeader {Ref} code.
Arguments EvWriter {Ref} i wcloser.
Arguments EvLogger {Ref} i.
Arguments EvCopy {Ref}.
Arguments EvBodyClose {Ref}.
Arguments EvSinkClose {Ref} wcloser.

(** One of the writers handed to [io.MultiWriter]: [dst], or a sink. *)
Inductive Target (Ref : Type) : Type :=
| TClient
| TSink (wcloser : Ref).
Arguments TClient {Ref}.
Arguments TSink {Ref} wcloser.

Section Pipeline.
Context {W Ref : Type} `{!WriteCloser W Ref} `{!RangeOrder}.

(** A hook gets the pointer [res]: it may change the response and
    whatever else it holds on to.  [None] is the [nil] interface.  Hooks
    are taken to return: [intercept] has no [recover], so a hook that
    panics would end the call where it stands. *)
Definition Writer : Type := Response.t → W → W * Response.t * option Ref.
Definition Director : Type := Response.t → W → W * Response.t * option error.
Definition Logger : Type := Response.t → W → W * Response.t * option error.

Record t : Type := mk {
  Bind : string;
  Writers : list Writer;
  Directors : list Director;
  Loggers : list Logger
}.

Definition New : t := mk "0.0.0.0:9999" [] [] [].

Definition AddWriter (wri : Writer) (self : t) : t :=
  mk (Bind self) (Writers self ++ [wri]) (Directors self) (Loggers self).

Definition AddDirector (dir : Director) (self : t) : t :=
  mk (Bind self) (Writers self) (Directors self ++ [dir]) (Loggers self).

Definition AddLogger (dir : Logger) (self : t) : t :=
  mk (Bind self) (Writers self) (Directors self) (Loggers self ++ [dir]).

(** The state one call of [intercept] works on. *)
Record Exchange : Type := mkExchange {
  world : W;
  res : Response.t;
  dst : ResponseWriter.t;
  trace : list (Event Ref)
}.

Definition M (A : Type) : Type := Exchange → Exchange * result A.

Definition ret {A} (a : A) : M A := λ x, (x, Ok a).

Definition bind {A B} (m : M A) (k : A → M B) : M B :=
  λ x, match m x with
       | (x', Ok a) => k a x'
       | (x', Panic e) => (x', Panic e)
       end.

Definition panic {A} (msg : string) : M A := λ x, (x, Panic msg).

Definition emit (e : Event Ref) (x : Exchange) : Exchange :=
  mkExchange (world x) (res x) (dst x) (trace x ++ [e]).

#[local] Instance exchange_ret : MRet M := @ret.
#[local] Instance exchange_bind : MBind M := λ A B k m, bind m k.

(** [self.Directors[i](res)]; the error it returns is dropped. *)
Definition callDirector (i : nat) (d : Director) : M unit :=
  λ x, let '(w, r, _) := d (res x) (world x) in
       (emit (EvDirector i) (mkExchange w r (dst x) (trace x)), Ok tt).

Definition callLogger (i : nat) (l : Logger) : M unit :=
  λ x, let '(w, r, _) := l (res x) (world x) in
       (emit (EvLogger i) (mkExchange w r (dst x) (trace x)), Ok tt).

Definition callWriter (i : nat) (wr : Writer) : M (option Ref) :=
  λ x, let '(w, r, wcloser) := wr (res x) (world x) in
       (emit (EvWriter i wcloser) (mkExchange w r (dst x) (trace x)), Ok wcloser).

(** [for i, _ = range hooks { hooks[i](res) }] *)
Fixpoint rangeOver {H : Type} (call : nat → H → M unit) (i : nat)
    (hooks : list H) : M unit :=
  match hooks with
  | [] => ret tt
  | h :: hooks' => call i h ;; rangeOver call (S i) hooks'
  end.

(** The loop over [self.Writers], which collects the non-nil sinks. *)
Fixpoint openSinks (i : nat) (ws : list Writer) (wclosers : list Ref)
    : M (list Ref) :=
  match ws with
  | [] => ret wclosers
  | wr :: ws' =>
      wcloser ← callWriter i wr;
      openSinks (S i) ws'
        (match wcloser with
         | Some r => wclosers ++ [r]
         | None => wclosers
         end)
  end.

(** [copyHeader(dst.Header(), res.Header)] *)
Definition commitHeaders : M unit :=
  λ x, let d := dst x in
       let h := copyHeader (ResponseWriter.header d) (Response.Header (res x)) in
       (emit EvCopyHeader
          (mkExchange (world x) (res x)
             (ResponseWriter.mk h (ResponseWriter.interim d)
                (ResponseWriter.sent d) (ResponseWriter.conn d))
             (trace x)), Ok tt).

(** [dst.WriteHeader(res.StatusCode)]: the call returns, or it panics
    and [intercept] with it. *)
Definition commitStatus : M unit :=
  λ x, let code := Response.StatusCode (res x) in
       match ResponseWriter.WriteHeader code (dst x) with
       | Ok d =>
           (emit (EvWriteHeader code)
              (mkExchange (world x) (res x) d (trace x)), Ok tt)
       | Panic msg => (x, Panic msg)
       end.

(** [Write] of one of the writers of the fan-out. *)
Definition writeTarget (t : Target Ref) (p : bytes)
    (st : W * ResponseWriter.t) : (W * ResponseWriter.t) * (nat * option error) :=
  match t with
  | TClient =>
      let '(d, r) := ResponseWriter.Write p (snd st) in ((fst st, d), r)
  | TSink s =>
      let '(w, r) := sinkWrite s p (fst st) in ((w, snd st), r)
  end.

Definition fanOut (wclosers : list Ref) : list (Target Ref) :=
  TClient :: map TSink wclosers.

(** [if res.Body != nil { ... io.Copy(io.MultiWriter(writers...), res.Body) }] *)
Definition writeResponse (wclosers : list Ref) : M unit :=
  λ x, match Response.Body (res x) with
       | None => (x, Ok tt)
       | Some b =>
           let '((w, d), (rest, _)) :=
             Copy (multiWrite writeTarget (fanOut wclosers))
                  (Body.unread b) (world x, dst x) in
           (emit EvCopy
              (mkExchange w
                 (Response.withBody (Some (Body.mk rest (Body.closed b))) (res x))
                 d (trace x)), Ok tt)
       end.

(** [res.Body.Close()] *)
Definition closeBody : M unit :=
  λ x, match Response.Body (res x) with
       | None => (x, Panic nilDeref)
       | Some b =>
           (emit EvBodyClose
              (mkExchange (world x)
                 (Response.withBody
                    (Some (Body.mk (Body.unread b) (S (Body.closed b)))) (res x))
                 (dst x) (trace x)), Ok tt)
       end.

(** [wclosers[i].Close()] *)
Definition closeSink (i : nat) (s : Ref) : M unit :=
  λ x, (emit (EvSinkClose s)
          (mkExchange (sinkClose s (world x)) (res x) (dst x) (trace x)), Ok tt).

Definition intercept (self : t) : M unit :=
  rangeOver callDirector 0 (Directors self) ;;
  commitHeaders ;;
  commitStatus ;;
  wclosers ← openSinks 0 (Writers self) [];
  rangeOver callLogger 0 (Loggers self) ;;
  writeResponse wclosers ;;
  closeBody ;;
  rangeOver closeSink 0 wclosers.

(** *** [ServeHTTP] *)

(** The request [out] as [transport.RoundTrip(out)] receives it.  [out]
    starts as a copy of [*req], so [out.URL] and [out.Header] are the
    inbound request's own URL and header map. *)
Definition outbound (req : Request.t) : result Request.t :=
  match Request.URL req with
  | None => Panic nilDeref
  | Some u =>
      let url := URL.mk "http" (URL.Opaque u) (Request.Host req) (URL.Path u)
                   (URL.RawQuery u) (URL.Fragment u) in
      Ok (Request.mk (Request.Method req) (Some url) "HTTP/1.1" 1 1
            (Add "Host" (Request.Host req) (Request.Header req))
            (Request.Body req) (Request.ContentLength req)
            (Request.TransferEncoding req) false (Request.Host req)
            (Request.Trailer req) (Request.RemoteAddr req)
            (Request.RequestURI req))
  end.

(** [http.DefaultTransport.RoundTrip]: a response, or an error. *)
Definition Transport : Type := Request.t → W → W * (Response.t + error).

(** What a call of the handler leaves behind. *)
Record Served : Type := mkServed {
  after : W;
  client : ResponseWriter.t;
  calls : list (Event Ref);
  outcome : result unit
}.

Definition ServeHTTP (self : t) (transport : Transport)
    (wri : ResponseWriter.t) (req : Request.t) (w : W) : Served :=
  match outbound req with
  | Panic m => mkServed w wri [] (Panic m)
  | Ok out =>
      match transport out w with
      | (w', inr err) => mkServed w' wri [] (Panic err)
      | (w', inl r) =>
          let '(x, o) := intercept self (mkExchange w' r wri []) in
          mkServed (world x) (dst x) (trace x) o
      end
  end.
End Pipeline.

Arguments t W Ref : clear implicits.
Arguments Exchange W Ref : clear implicits.
Arguments Writer W Ref : clear implicits.
Arguments Director W : clear implicits.
Arguments Logger W : clear implicits.
Arguments Served W Ref : clear implicits.
Arguments Transport W : clear implicits.

End Proxy.

(** ** Package [save] *)

Module Save.
Import GoHttp GoIo.

Section Save.
Context {W File : Type} `{GoOs.OS W File}.
Variable mimextExt : string → string.
Variable g : Proxy.Globals.
(** [path.Dir] and the lines [http.Header.Write] puts on the wire. *)
Variable pathDir : string → string.
Variable wireLines : Header → list bytes.

(** [res.Header.Write(fp)]: line after line, until a write fails. *)
Fixpoint headerWrite (fp : File) (lines : list bytes) (w : W) : W * option error :=
  match lines with
  | [] => (w, None)
  | l :: ls =>
      let '(w', (_, err)) := sinkWrite fp l w in
      match err with
      | Some e => (w', Some e)
      | None => headerWrite fp ls w'
      end
  end.

(** [Head], a [proxy.Writer]: the state it leaves, the response, and
    the [io.WriteCloser] it returns. *)
Definition Head (res : Response.t) (w : W) : W * result (option File) :=
  match Proxy.ArchiveFile mimextExt g res with
  | Panic m => (w, Panic m)
  | Ok archive =>
      let file := archive +:+ ".head" in
      let '(w1, _) := Proxy.Workdir (pathDir file) w in
      let '(w2, fp) := GoOs.Create file w1 in
      match fp with
      | Some fp =>
          let '(w3, _) := headerWrite fp (wireLines (Response.Header res)) w2 in
          (sinkClose fp w3, Ok None)
      | None => (w2, Ok None)
      end
  end.

(** [Body], a [proxy.Writer].  It returns [fp], a [*os.File], as an
    [io.WriteCloser]: the interface value it hands back is never [nil]
    (the outer [Some]), also when the file pointer in it is (the inner
    [None], after a failed [os.Create]). *)
Definition Body (res : Response.t) (w : W) : W * result (option (option File)) :=
  match Proxy.ArchiveFile mimextExt g res with
  | Panic m => (w, Panic m)
  | Ok file =>
      let '(w1, _) := Proxy.Workdir (pathDir file) w in
      let '(w2, fp) := GoOs.Create file w1 in
      (w2, Ok (Some fp))
  end.
End Save.

End Save.

(** ** A world to run the code in

    Files and other sinks are kept in a heap of [Dest]s, addressed by their
    index; the paths in [denied] are the ones [os.Create] and [os.MkdirAll]
    refuse. *)

Module Sim.
Import GoIo.

Record World : Type := mkWorld {
  heap : list Dest;
  files : gmap string nat;
  dirs : list string;
  denied : list string
}.

Definition empty : World := mkWorld [] ∅ [] [].

Definition write (a : nat) (p : bytes) (w : World) : World * (nat * option error) :=
  match heap w !! a with
  | None => (w, (0%nat, Some "invalid argument"))
  | Some d =>
      let '(d', r) := destWrite p d in
      (mkWorld (<[a := d']> (heap w)) (files w) (dirs w) (denied w), r)
  end.

Definition close (a : nat) (w : World) : World :=
  mkWorld (alter destClose a (heap w)) (files w) (dirs w) (denied w).

#[export] Instance world_sinks : WriteCloser World nat :=
  {| sinkWrite := write; sinkClose := close |}.

Definition mkdirAll (dir : string) (w : World) : World * option error :=
  if bool_decide (dir ∈ denied w) then (w, Some "permission denied")
  else (mkWorld (heap w) (files w) (dir :: dirs w) (denied w), None).

Definition create (name : string) (w : World) : World * option nat :=
  if bool_decide (name ∈ denied w) then (w, None)
  else (mkWorld (heap w ++ [newDest None]) (<[name := length (heap w)]> (files w))
          (dirs w) (denied w),
        Some (length (heap w))).

#[export] Instance world_os : GoOs.OS World nat :=
  {| GoOs.MkdirAll := mkdirAll; GoOs.Create := create |}.

(** A sink that is already open, with [room] bytes of space. *)
Definition open (room : option nat) (w : World) : World * nat :=
  (mkWorld (heap w ++ [newDest room]) (files w) (dirs w) (denied w), length (heap w)).

(** A hook that opens a sink of its own. *)
Definition sinkWriter (room : option nat) : Proxy.Writer World nat :=
  λ res w, let '(w', a) := open room w in (w', res, Some a).

(** A hook that opens nothing. *)
Definition noSink : Proxy.Writer World nat := λ res w, (w, res, None).

(** A hook that leaves everything as it is. *)
Definition idle : Proxy.Director World := λ res w, (w, res, None).

(** Both loops of [copyHeader] take the maps in the order of
    [map_to_list]. *)
#[export] Instance listed : Proxy.RangeOrder :=
  {| Proxy.rangeDst h := map fst (map_to_list h); Proxy.rangeSrc := map_to_list |}.

End Sim.

(** ** The vocabulary of the statements *)

Module Spec.
Import GoHttp GoIo Proxy.

(** The file stem both path resolvers start from: the URL path without
    its outer slashes, [index] when nothing is left. *)
Definition stem (u : URL.t) : string :=
  let file := GoStrings.Trim (URL.Path u) "/" in
  if String.eqb file "" then "index" else file.

Definition gzSuffix (h : Header) : string :=
  if String.eqb (Get "Content-Encoding" h) "gzip" then ".gz" else "".

(** [dst'] holds the entries of [src] and nothing that [dst] held
    besides: a full replacement. *)
Definition exactlySource (dst src dst' : Header) : Prop :=
  (∀ k, is_Some (src !! k) → Values k dst' = Values k src)
  ∧ (∀ k, is_Some (dst !! k) → src !! k = None → dst' !! k = None).

(** A write that did not take all of [p]: an error, or a short count. *)
Definition failed (r : nat * option error) (p : bytes) : Prop :=
  r.2 ≠ None ∨ r.1 ≠ length p.

(** The handler returned and a status line went out to the client. *)
Definition answered {W Ref : Type} (s : Served W Ref) : Prop :=
  outcome s = Ok tt ∧ is_Some (ResponseWriter.sent (client s)).

(** Calendar order of two clock readings. *)
Definition thenBy (c d : comparison) : comparison :=
  match c with
  | Eq => d
  | _ => c
  end.

Definition compareTime (a b : Time.t) : comparison :=
  thenBy (Time.Year a ?= Time.Year b)%Z
 (thenBy (Time.Month a ?= Time.Month b)%Z
 (thenBy (Time.Day a ?= Time.Day b)%Z
 (thenBy (Time.Hour a ?= Time.Hour b)%Z
 (thenBy (Time.Minute a ?= Time.Minute b)%Z
 (thenBy (Time.Second a ?= Time.Second b)%Z
         (Time.Nanosecond a ?= Time.Nanosecond b)%Z))))).

(** The fields of a clock reading as [time.Time] delivers them, for the
    years that have four digits. *)
Definition wellFormed (t : Time.t) : Prop :=
  (0 ≤ Time.Year t < 10000)%Z ∧ (0 ≤ Time.Month t < 100)%Z
  ∧ (0 ≤ Time.Day t < 100)%Z ∧ (0 ≤ Time.Hour t < 100)%Z
  ∧ (0 ≤ Time.Minute t < 100)%Z ∧ (0 ≤ Time.Second t < 100)%Z
  ∧ (0 ≤ Time.Nanosecond t < 1000000000)%Z.
End Spec.

(** ** Exchanges to run the code on *)

Module Scenario.
Import GoHttp GoIo Proxy Sim.

Definition text (s : string) : bytes := list_byte_of_string s.

(** A request as the server hands it to [ServeHTTP]. *)
Definition request (path remote : string) : Request.t :=
  Request.mk "GET" (Some (URL.mk "" "" "" path "" ""))
    "HTTP/1.0" 1 0 {[ "Accept" := ["*/*"] ]} None 0 [] true "example.com" ∅
    remote path.

(** The same request as the transport gets it, and as the response
    refers to it. *)
Definition forwarded (path remote : string) : Request.t :=
  Request.mk "GET" (Some (URL.mk "http" "" "example.com" path "" ""))
    "HTTP/1.1" 1 1 {[ "Accept" := ["*/*"]; "Host" := ["example.com"] ]}
    None 0 [] false "example.com" ∅ remote path.

Definition response (h : Header) (body : option Body.t) (req : option Request.t)
    : Response.t :=
  Response.mk "200 OK" 200 "HTTP/1.1" 1 1 h body (-1) [] false ∅ req.

Definition hello : Body.t := Body.mk [text "hel"; text "lo"] 0.

Definition page (body : option Body.t) : Response.t :=
  response {[ "Content-Type" := ["text/html"] ]} body
    (Some (forwarded "/" "10.0.0.7:51234")).

Definition start (body : option Body.t) : Exchange World nat :=
  mkExchange Sim.empty (page body) (ResponseWriter.fresh None) [].

(** Directors [D1, D2], Writers [W1, W2], Loggers [L1]; [W1] opens a sink,
    [W2] none. *)
Definition scripted : Proxy.t World nat :=
  AddLogger idle
    (AddWriter noSink
       (AddWriter (sinkWriter None)
          (AddDirector idle (AddDirector idle New)))).

(** The calls of [scripted] in the order the specification lays down:
    the copy before the Loggers. *)
Definition specOrder : list (Event nat) :=
  [EvDirector 0; EvDirector 1; EvCopyHeader; EvWriteHeader 200;
   EvWriter 0 (Some 0%nat); EvWriter 1 None; EvCopy; EvLogger 0;
   EvBodyClose; EvSinkClose 0%nat].

(** Two sinks, the first of which takes no byte at all. *)
Definition tee : Proxy.t World nat :=
  AddWriter (sinkWriter None) (AddWriter (sinkWriter (Some 0%nat)) New).

(** The exchange of [tee] when the copy starts: both sinks are open. *)
Definition teeOpen : Exchange World nat :=
  mkExchange (mkWorld [newDest (Some 0%nat); newDest None] ∅ [] [])
    (page (Some hello)) (ResponseWriter.fresh None) [].

(** A Director that takes the body away. *)
Definition dropBody : Director World :=
  λ res w, (w, Response.withBody None res, None).

Definition oneSink : Proxy.t World nat :=
  AddLogger idle (AddWriter (sinkWriter None) New).

Definition bodyDropped : Proxy.t World nat := AddDirector dropBody oneSink.

(** A Director that gives the response a status code of its choice. *)
Definition setStatus (code : Z) : Director World :=
  λ res w,
    (w, Response.mk (Response.Status res) code (Response.Proto res)
          (Response.ProtoMajor res) (Response.ProtoMinor res)
          (Response.Header res) (Response.Body res) (Response.ContentLength res)
          (Response.TransferEncoding res) (Response.Close res)
          (Response.Trailer res) (Response.Request res), None).

Definition statusSet (code : Z) : Proxy.t World nat :=
  AddDirector (setStatus code) oneSink.

(** A Logger that keeps a copy of the sink at address [a] as it finds it. *)
Definition snapshot (a : nat) : Logger World :=
  λ res w,
    (match heap w !! a with
     | Some d => mkWorld (heap w ++ [d]) (files w) (dirs w) (denied w)
     | None => w
     end, res, None).

Definition observed : Proxy.t World nat :=
  AddLogger (snapshot 0) (AddWriter (sinkWriter None) New).

(** A transport whose every round trip fails. *)
Definition refusing : Transport World :=
  λ out w, (w, inr "dial tcp: connection refused").

Definition noExt : string → string := λ _, "".
Definition htmlExt : string → string :=
  λ ct, if String.eqb ct "text/html" then "html" else "".

Definition readme : Response.t :=
  response {[ "Content-Type" := ["application/x-unknown"] ]} None
    (Some (forwarded "/docs/readme" "10.0.0.7:51234")).

(** The same resource, fetched by another client with another method. *)
Definition readmeAgain : Response.t :=
  Response.mk "304 Not Modified" 304 "HTTP/1.0" 1 0
    {[ "Content-Type" := ["application/x-unknown"; "text/plain"];
       "Etag" := ["abc"] ]}
    (Some hello) 5 [] true ∅
    (Some (Request.mk "HEAD"
             (Some (URL.mk "https" "" "example.com" "/docs/readme" "v=2" "top"))
             "HTTP/1.1" 1 1 ∅ None 0 [] false "example.com" ∅
             "192.168.1.9:40000" "/docs/readme?v=2")).

Definition staleDst : Header := {[ "x-old" := ["1"] ]}.
Definition freshSrc : Header := {[ "x-new" := ["2"] ]}.
Definition dstCanon : Header := {[ "X-Old" := ["1"] ]}.
Definition srcCanon : Header := {[ "Content-Type" := ["text/html"] ]}.

(** Stand-ins for [path.Dir] and for the wire form of a header map. *)
Fixpoint dirname (p : string) : string :=
  match p with
  | EmptyString => EmptyString
  | String c p' =>
      if GoStrings.contains "/" p' then String c (dirname p') else EmptyString
  end.

Definition lines (h : Header) : list bytes :=
  (λ kv, text (kv.1 +:+ ": " +:+ String.concat ", " kv.2)) <$> map_to_list h.

Definition readOnly : World :=
  mkWorld [] ∅ [] ["archive/example.com/index.html.head"].

Definition clock : Time.t := Time.mk 2026 10 30 12 34 56 789.
Definition later : Time.t := Time.mk 2026 10 30 12 34 57 5.

Definition ipv6Client : Response.t :=
  response ∅ None (Some (forwarded "/a/b" "[::1]:54321")).
Definition ipv4Client : Response.t :=
  response ∅ None (Some (forwarded "/a/b" "10.0.0.7:51234")).
End Scenario.

(** ** Compositions of the operations *)

Module Derived.
Import GoHttp GoIo Proxy.

(** A URL path made of [n] slashes. *)
Fixpoint slashes (n : nat) : string :=
  match n with
  | O => EmptyString
  | S n' => String "/" (slashes n')
  end.

Definition firstChar (s : string) : option ascii :=
  match s with
  | EmptyString => None
  | String c _ => Some c
  end.

Fixpoint lastChar (s : string) : option ascii :=
  match s with
  | EmptyString => None
  | String c EmptyString => Some c
  | String _ s' => lastChar s'
  end.

(** A [*os.File] that may be [nil], as an [io.WriteCloser]: [Write] on the
    [nil] file returns an error and writes nothing. *)
#[export] Instance nilable {W File : Type} `{!WriteCloser W File}
    : WriteCloser W (option File) :=
  {| sinkWrite fp p w :=
       match fp with
       | Some f => sinkWrite f p w
       | None => (w, (0%nat, Some "invalid argument"))
       end;
     sinkClose fp w :=
       match fp with
       | Some f => sinkClose f w
       | None => w
       end |}.

Section Hooks.
Context {W Ref : Type} `{!WriteCloser W Ref} `{!RangeOrder}.

(** One call of [AddWriter], [AddDirector] or [AddLogger]. *)
Inductive Hook : Type :=
| HookWriter (wri : Writer W Ref)
| HookDirector (dir : Director W)
| HookLogger (dir : Logger W).

Definition register (self : Proxy.t W Ref) (h : Hook) : Proxy.t W Ref :=
  match h with
  | HookWriter wri => AddWriter wri self
  | HookDirector dir => AddDirector dir self
  | HookLogger dir => AddLogger dir self
  end.

(** [New()] followed by the calls [hs], in that order. *)
Definition registerAll (hs : list Hook) : Proxy.t W Ref :=
  foldl register New hs.

Definition writersOf (hs : list Hook) : list (Writer W Ref) :=
  omap (λ h, match h with HookWriter wri => Some wri | _ => None end) hs.
Definition directorsOf (hs : list Hook) : list (Director W) :=
  omap (λ h, match h with HookDirector dir => Some dir | _ => None end) hs.
Definition loggersOf (hs : list Hook) : list (Logger W) :=
  omap (λ h, match h with HookLogger dir => Some dir | _ => None end) hs.

(** The exchange as the Directors [ds] leave it. *)
Definition afterDirectors (ds : list (Director W)) (x : Exchange W Ref)
    : Exchange W Ref :=
  (rangeOver callDirector 0 ds x).1.

(** The status and the headers that go out to the client when
    [WriteHeader] takes the status code for the final one: what an
    earlier [WriteHeader] has sent already, or else the status and the
    headers of the response as the Directors leave it. *)
Definition committed (ds : list (Director W)) (x : Exchange W Ref) : Z * Header :=
  match ResponseWriter.sent (dst x) with
  | Some s => s
  | None =>
      let r := res (afterDirectors ds x) in
      (Response.StatusCode r,
       copyHeader (ResponseWriter.header (dst x)) (Response.Header r))
  end.

(** The sinks of [sinks] take every write in full, in every world that
    satisfies [Inv], and leave [Inv] standing. *)
Definition accepting (Inv : W → Prop) (sinks : list Ref) : Prop :=
  ∀ s p w, s ∈ sinks → Inv w →
    ∃ w', sinkWrite s p w = (w', (length p, None)) ∧ Inv w'.
End Hooks.

End Derived.

(** ** More exchanges to run the code on *)

Module Cases.
Import GoHttp GoIo Proxy Sim Scenario Derived.

Definition site (path : string) : URL.t := URL.mk "http" "" "example.com" path "" "".

(** The front page, asked for as [///]. *)
Definition rootPage : Response.t :=
  response {[ "Content-Type" := ["text/html"] ]} None
    (Some (forwarded "///" "10.0.0.7:51234")).

Definition logo : Response.t :=
  response {[ "Content-Type" := ["text/html"] ]} None
    (Some (forwarded "/img/logo.png" "10.0.0.7:51234")).

Definition gzPage : Response.t :=
  response {[ "Content-Type" := ["text/html"]; "Content-Encoding" := ["gzip"] ]}
    None (Some (forwarded "/" "10.0.0.7:51234")).

(** A source that holds one header under two spellings, as the second
    loop of [copyHeader] may meet it. *)
Definition twoSpellings : list (string * list string) :=
  [("x-a", ["1"]); ("X-A", ["2"; "3"])].

(** The sink at address [a] is open and has no limit. *)
Definition sinkReady (a : nat) (w : World) : Prop :=
  ∃ d, heap w !! a = Some d ∧ room d = None.

(** An exchange whose one sink is open when the copy starts. *)
Definition oneOpen : Exchange World nat :=
  mkExchange (mkWorld [newDest None] ∅ [] []) (page (Some hello))
    (ResponseWriter.fresh None) [].

(** The same with sinks that are files that may be [nil]. *)
Definition noFile : Exchange World (option nat) :=
  mkExchange Sim.empty (page (Some hello)) (ResponseWriter.fresh None) [].

(** A transport that answers every request with the same page. *)
Definition serving : Transport World :=
  λ out w, (w, inl (page (Some hello))).

(** A Writer that overwrites the status and the headers of the response. *)
Definition spoiler : Writer World nat :=
  λ r w, (w, Response.mk "500" 500 "" 0 0 ∅ (Response.Body r) 0 [] true ∅
               (Response.Request r), None).

Definition spoiled : Proxy.t World nat := AddWriter spoiler New.

(** A source that holds a key with a space in it, under two spellings. *)
Definition spacedKeys : list (string * list string) :=
  [("x a", ["1"]); ("X A", ["2"])].
End Cases.

(** * Properties *)

(** ** Strings *)

Module StringFacts.

Lemma append_nil_r s : s +:+ "" = s.
Proof.
  induction s as [|a s IH]; [reflexivity|].
  change (String a (s +:+ "") = String a s). by rewrite IH.
Qed.

Lemma append_assoc s1 s2 s3 : (s1 +:+ s2) +:+ s3 = s1 +:+ s2 +:+ s3.
Proof.
  induction s1 as [|a s1 IH]; [reflexivity|].
  change (String a ((s1 +:+ s2) +:+ s3) = String a (s1 +:+ s2 +:+ s3)).
  by rewrite IH.
Qed.

Lemma append_cons a s1 s2 : String a s1 +:+ s2 = String a (s1 +:+ s2).
Proof. reflexivity. Qed.

(** The piece before the first colon of [host:port] is [host], as long as
    [host] has no colon of its own. *)
Lemma SplitN2_host_port host port :
  GoStrings.contains ":" host = false →
  GoStrings.SplitN2 (host +:+ ":" +:+ port) ":" !! 0%nat = Some host.
Proof.
  intros Hc. unfold GoStrings.SplitN2.
  assert (A : GoStrings.afterFirst ":" (host +:+ ":" +:+ port) = Some port
              ∧ GoStrings.beforeFirst ":" (host +:+ ":" +:+ port) = host).
  { induction host as [|c host IH]; [by split|].
    rewrite append_cons. simpl in *.
    destruct (Ascii.eqb c ":"); [discriminate|].
    destruct (IH Hc) as [-> ->]. by split. }
  destruct A as [-> ->]. reflexivity.
Qed.

End StringFacts.

(** ** [copyHeader] *)

Module HeaderFacts.
Import GoHttp Proxy Spec Sim Scenario.

Lemma Del_canonical k (h : Header) :
  CanonicalMIMEHeaderKey k = k → Del k h = delete k h.
Proof. intros E. unfold Del. by rewrite E. Qed.

Lemma Add_canonical k v (h : Header) :
  CanonicalMIMEHeaderKey k = k → Add k v h = <[k := Values k h ++ [v]]> h.
Proof. intros E. unfold Add. by rewrite E. Qed.

(** The first loop removes the keys it visits. *)
Lemma delLoop_lookup ks (dst : Header) k :
  (∀ k', k' ∈ ks → CanonicalMIMEHeaderKey k' = k') →
  delLoop ks dst !! k = if decide (k ∈ ks) then None else dst !! k.
Proof.
  revert dst. induction ks as [|k0 ks IH]; intros dst Hc; simpl.
  - destruct (decide (k ∈ [])) as [Hin|_]; [by apply elem_of_nil in Hin | done].
  - assert (E : (if decide (is_Some (dst !! k0)) then Del k0 dst else dst)
                = delete k0 dst).
    { destruct (decide (is_Some (dst !! k0))) as [Hs|Hs].
      - apply Del_canonical, Hc, elem_of_cons. by left.
      - symmetry. apply delete_id. by apply eq_None_not_Some. }
    rewrite E, IH by (intros k' Hk'; apply Hc, elem_of_cons; by right).
    destruct (decide (k = k0)) as [->|Hne].
    + rewrite lookup_delete_eq.
      destruct (decide (k0 ∈ k0 :: ks)) as [_|N].
      * by destruct (decide (k0 ∈ ks)).
      * exfalso. apply N, elem_of_cons. by left.
    + rewrite lookup_delete_ne by done.
      destruct (decide (k ∈ ks)) as [I|I];
        destruct (decide (k ∈ k0 :: ks)) as [J|J]; try done.
      * exfalso. apply J, elem_of_cons. by right.
      * apply elem_of_cons in J as [->|J]; done.
Qed.

Lemma addValues_lookup k vv (h : Header) k' :
  CanonicalMIMEHeaderKey k = k →
  addValues k vv h !! k' =
    if decide (k = k')
    then match vv with [] => h !! k | _ => Some (Values k h ++ vv) end
    else h !! k'.
Proof.
  intros Hk. revert h. induction vv as [|v vv IH]; intros h; simpl.
  - destruct (decide (k = k')); by subst.
  - rewrite IH, Add_canonical by done. destruct (decide (k = k')) as [E|E].
    + subst k'. rewrite lookup_insert_eq.
      assert (Values k (<[k:=Values k h ++ [v]]> h) = Values k h ++ [v]) as ->.
      { unfold Values at 1. by rewrite lookup_insert_eq. }
      destruct vv; simpl; [done|]. by rewrite <- app_assoc.
    + by rewrite lookup_insert_ne.
Qed.

Lemma addLoop_other kvs (h : Header) k :
  (∀ k', k' ∈ kvs.*1 → CanonicalMIMEHeaderKey k' = k') →
  k ∉ kvs.*1 → addLoop kvs h !! k = h !! k.
Proof.
  revert h. induction kvs as [|[k0 vv] kvs IH]; intros h Hc Hk; simpl in *; [done|].
  apply not_elem_of_cons in Hk as [Hne Hk].
  rewrite IH; [|intros k' Hk'; apply Hc, elem_of_cons; by right|done].
  rewrite addValues_lookup by (apply Hc, elem_of_cons; by left).
  destruct (decide (k0 = k)); [by subst|done].
Qed.

Lemma addLoop_entry kvs (h : Header) k vv :
  (∀ k', k' ∈ kvs.*1 → CanonicalMIMEHeaderKey k' = k') →
  NoDup kvs.*1 → (k, vv) ∈ kvs →
  addLoop kvs h !! k =
    match vv with [] => h !! k | _ => Some (Values k h ++ vv) end.
Proof.
  revert h. induction kvs as [|[k0 vv0] kvs IH]; intros h Hc Hnd Hin; simpl in *.
  - by apply elem_of_nil in Hin.
  - apply NoDup_cons in Hnd as [Hk0 Hnd].
    assert (Hc' : ∀ k', k' ∈ kvs.*1 → CanonicalMIMEHeaderKey k' = k')
      by (intros k' Hk'; apply Hc, elem_of_cons; by right).
    assert (Hc0 : CanonicalMIMEHeaderKey k0 = k0)
      by (apply Hc, elem_of_cons; by left).
    apply elem_of_cons in Hin as [E|Hin].
    + injection E as <- <-.
      rewrite addLoop_other by done.
      rewrite addValues_lookup by done. by rewrite decide_True.
    + assert (k ≠ k0).
      { intros ->. apply Hk0. apply list_elem_of_fmap. by exists (k0, vv). }
      rewrite IH by done.
      unfold Values. rewrite addValues_lookup by done.
      by rewrite decide_False.
Qed.

(** What [copyHeader] leaves in [dst], key by key, when both maps are
    keyed by canonical names: the non-empty value lists of [src]. *)
Lemma copyHeaderIn_lookup ks kvs (dst src : Header) k :
  ks ≡ₚ (map_to_list dst).*1 → kvs ≡ₚ map_to_list src →
  canonicalKeys dst → canonicalKeys src →
  copyHeaderIn ks kvs dst !! k =
    match src !! k with
    | Some (v :: vv) => Some (v :: vv)
    | _ => None
    end.
Proof.
  intros Hks Hkvs Hd Hs. unfold copyHeaderIn.
  assert (Hempty : delLoop ks dst = ∅).
  { apply map_eq. intros j. rewrite lookup_empty, delLoop_lookup.
    - destruct (decide (j ∈ ks)) as [|Hj]; [done|].
      apply eq_None_not_Some. intros [x Hx].
      apply Hj. rewrite Hks. apply list_elem_of_fmap. exists (j, x).
      split; [done|]. by apply elem_of_map_to_list.
    - intros k'. rewrite Hks. intros [[k1 x] [-> Hx]]%list_elem_of_fmap.
      apply Hd. exists x. by apply elem_of_map_to_list. }
  rewrite Hempty.
  assert (Hc : ∀ k', k' ∈ kvs.*1 → CanonicalMIMEHeaderKey k' = k').
  { intros k'. rewrite Hkvs. intros [[k1 x] [-> Hx]]%list_elem_of_fmap.
    apply Hs. exists x. by apply elem_of_map_to_list. }
  destruct (src !! k) as [vv|] eqn:E.
  - rewrite (addLoop_entry kvs ∅ k vv); [| done | | ].
    + unfold Values. rewrite lookup_empty. by destruct vv.
    + rewrite Hkvs. apply NoDup_fst_map_to_list.
    + rewrite Hkvs. by apply elem_of_map_to_list.
  - rewrite addLoop_other; [apply lookup_empty | done |].
    rewrite Hkvs. intros [[k1 x] [-> Hx]]%list_elem_of_fmap.
    apply elem_of_map_to_list in Hx. simpl in *. congruence.
Qed.

(** C10, as amended.  When the keys of both header maps are in canonical
    form, [copyHeader] leaves in the destination exactly the entries of
    the source, whatever order the two [range] loops take: every key has
    the value list it has in the source, a key the source lacks is gone,
    a non-empty value list of the source is there in full and in order,
    and a source key with an empty list is absent. *)
Theorem copyHeader_replaces ks kvs (dst src : Header) :
  ks ≡ₚ (map_to_list dst).*1 → kvs ≡ₚ map_to_list src →
  canonicalKeys dst → canonicalKeys src →
  (∀ k, Values k (copyHeaderIn ks kvs dst) = Values k src)
  ∧ (∀ k, src !! k = None → copyHeaderIn ks kvs dst !! k = None)
  ∧ (∀ k vv, src !! k = Some vv → vv ≠ [] →
       copyHeaderIn ks kvs dst !! k = Some vv)
  ∧ (∀ k, src !! k = Some [] → copyHeaderIn ks kvs dst !! k = None).
Proof.
  intros Hks Hkvs Hd Hs.
  pose proof (λ k, copyHeaderIn_lookup ks kvs dst src k Hks Hkvs Hd Hs) as L.
  repeat split.
  - intros k. unfold Values. rewrite L. by destruct (src !! k) as [[|]|].
  - intros k E. by rewrite L, E.
  - intros k vv E Hne. rewrite L, E. by destruct vv.
  - intros k E. by rewrite L, E.
Qed.

Lemma canonicalKeys_singleton k (vv : list string) :
  CanonicalMIMEHeaderKey k = k → canonicalKeys {[ k := vv ]}.
Proof.
  intros E j [x Hx]. apply lookup_singleton_Some in Hx as [<- _]. exact E.
Defined.

Lemma copyHeader_replaces_witness :
  Values "Content-Type" (copyHeader dstCanon srcCanon) = ["text/html"]
  ∧ copyHeader dstCanon srcCanon !! "X-Old" = None.
Proof.
  destruct (copyHeader_replaces (map fst (map_to_list dstCanon))
              (map_to_list srcCanon) dstCanon srcCanon) as (V & N & _).
  - reflexivity.
  - reflexivity.
  - apply canonicalKeys_singleton. reflexivity.
  - apply canonicalKeys_singleton. reflexivity.
  - split.
    + exact (V "Content-Type").
    + apply N. reflexivity.
Defined.

(** C10 as stated fails on a destination key that is not in canonical
    form: [Del] looks for [X-Old] and leaves [x-old] where it is. *)
Lemma copyHeader_keeps_stale_key :
  ¬ exactlySource staleDst freshSrc (copyHeader staleDst freshSrc).
Proof.
  intros [_ H]. specialize (H "x-old").
  assert (E : copyHeader staleDst freshSrc !! "x-old" = Some ["1"])
    by (vm_compute; reflexivity).
  rewrite E in H. discriminate H.
  - by exists ["1"].
  - reflexivity.
Qed.

Example copyHeader_renames_source_key :
  map_to_list (copyHeader staleDst freshSrc)
    = [("x-old", ["1"]); ("X-New", ["2"])].
Proof. vm_compute. reflexivity. Qed.

End HeaderFacts.

(** ** The path resolvers *)

Module PathFacts.
Import GoHttp Proxy Spec Scenario StringFacts.

Section Archive.
Variable mimextExt : string → string.
Variable g : Globals.

(** [ArchiveFile] in closed form. *)
Lemma ArchiveFile_eq res u :
  targetURL res = Ok u →
  ArchiveFile mimextExt g res =
    Ok (ArchiveDir g +:+ PS +:+ URL.Host u +:+ PS +:+
        ((if String.eqb (GoPath.Ext (stem u)) ""
          then stem u +:+ "." +:+ mimextExt (Get "Content-Type" (Response.Header res))
          else stem u) +:+ gzSuffix (Response.Header res))).
Proof.
  intros E. unfold ArchiveFile, stem, gzSuffix. rewrite E.
  destruct (String.eqb (Get "Content-Encoding" (Response.Header res)) "gzip");
    [done | by rewrite append_nil_r].
Qed.

(** C5, as amended.  When the stem has no extension and the extension
    lookup returns the empty string, [ArchiveFile] still appends the
    dot: the path is root, host and stem followed by a lone [.], and
    by [.gz] for a gzip encoding. *)
Theorem ArchiveFile_empty_extension res u :
  targetURL res = Ok u →
  GoPath.Ext (stem u) = "" →
  mimextExt (Get "Content-Type" (Response.Header res)) = "" →
  ArchiveFile mimextExt g res =
    Ok (ArchiveDir g +:+ PS +:+ URL.Host u +:+ PS +:+ stem u +:+ "."
        +:+ gzSuffix (Response.Header res)).
Proof.
  intros E Hext Hm. rewrite (ArchiveFile_eq res u E), Hext, Hm.
  change (String.eqb "" "") with true. cbv iota.
  by rewrite append_nil_r, append_assoc.
Qed.

(** C6.  [ArchiveFile] returns a path for every response that has a
    request with a URL, and the path is a function of the URL's path
    and host and of the values of Content-Type and Content-Encoding
    alone: two exchanges that agree on these get the same path,
    whatever else differs between them. *)
Theorem ArchiveFile_deterministic res1 res2 u1 u2 :
  targetURL res1 = Ok u1 → targetURL res2 = Ok u2 →
  URL.Path u1 = URL.Path u2 → URL.Host u1 = URL.Host u2 →
  Get "Content-Type" (Response.Header res1)
    = Get "Content-Type" (Response.Header res2) →
  Get "Content-Encoding" (Response.Header res1)
    = Get "Content-Encoding" (Response.Header res2) →
  ∃ p, ArchiveFile mimextExt g res1 = Ok p
       ∧ ArchiveFile mimextExt g res2 = Ok p.
Proof.
  intros E1 E2 HP HH HT HE.
  rewrite (ArchiveFile_eq res1 u1 E1), (ArchiveFile_eq res2 u2 E2).
  unfold stem, gzSuffix. rewrite HP, HH, HT, HE. eauto.
Qed.

(** Without a request, or without a URL in it, there is no path. *)
Lemma ArchiveFile_nil_request res m :
  targetURL res = Panic m → ArchiveFile mimextExt g res = Panic m.
Proof. intros E. unfold ArchiveFile. by rewrite E. Qed.
End Archive.

Lemma ArchiveFile_empty_extension_witness :
  ArchiveFile noExt initial readme = Ok "archive/example.com/docs/readme.".
Proof.
  apply (ArchiveFile_empty_extension noExt initial readme
           (URL.mk "http" "" "example.com" "/docs/readme" "" ""));
    reflexivity.
Defined.

(** C5 as stated fails: the path of [readme] is not root, host and stem
    unchanged; it ends in a dot. *)
Lemma ArchiveFile_trailing_dot :
  GoPath.Ext "docs/readme" = ""
  ∧ noExt (Get "Content-Type" (Response.Header readme)) = ""
  ∧ ArchiveFile noExt initial readme ≠ Ok "archive/example.com/docs/readme"
  ∧ ArchiveFile noExt initial readme = Ok "archive/example.com/docs/readme.".
Proof. repeat split; try reflexivity. discriminate. Qed.

Lemma ArchiveFile_deterministic_witness :
  ∃ p, ArchiveFile htmlExt initial readme = Ok p
       ∧ ArchiveFile htmlExt initial readmeAgain = Ok p.
Proof.
  apply (ArchiveFile_deterministic htmlExt initial readme readmeAgain
           (URL.mk "http" "" "example.com" "/docs/readme" "" "")
           (URL.mk "https" "" "example.com" "/docs/readme" "v=2" "top"));
    reflexivity.
Defined.

Example ArchiveFile_html_gz :
  ArchiveFile htmlExt initial
    (response {[ "Content-Type" := ["text/html"]; "Content-Encoding" := ["gzip"] ]}
       None (Some (forwarded "/" "10.0.0.7:51234")))
    = Ok "archive/example.com/index.html.gz".
Proof. vm_compute. reflexivity. Qed.

Example ArchiveFile_keeps_extension :
  ArchiveFile htmlExt initial
    (response {[ "Content-Type" := ["text/html"] ]} None
       (Some (forwarded "/img/logo.png" "10.0.0.7:51234")))
    = Ok "archive/example.com/img/logo.png".
Proof. vm_compute. reflexivity. Qed.

(** *** [ClientFile] *)

(** X8.  The layout of the client path when the remote address is [host:port]
    and [host] holds no colon. *)
Lemma ClientFile_layout g t res req u host port :
  Response.Request res = Some req → Request.URL req = Some u →
  Request.RemoteAddr req = host +:+ ":" +:+ port →
  GoStrings.contains ":" host = false →
  ClientFile g t res =
    Ok (ClientDir g +:+ PS +:+ host +:+ PS +:+ URL.Host u +:+ PS +:+ stem u
        +:+ PS +:+ now t).
Proof.
  intros Er Eu Ea Hc. unfold ClientFile. rewrite Er, Eu, Ea.
  by rewrite (SplitN2_host_port host port Hc).
Qed.

(** C7: the client segment of a peer with an IPv6 address.  The remote
    address [[::1]:54321] is cut at its first colon, so the segment is
    the opening bracket, not the host [::1]. *)
Theorem ClientFile_ipv6_remote :
  ClientFile initial clock ipv6Client
    = Ok "client/[/example.com/a/b/20261030-123456-000000789.bin".
Proof. vm_compute. reflexivity. Qed.

Example ClientFile_ipv4_remote :
  ClientFile initial clock ipv4Client
    = Ok "client/10.0.0.7/example.com/a/b/20261030-123456-000000789.bin".
Proof. vm_compute. reflexivity. Qed.

End PathFacts.

(** ** [io.MultiWriter] and [io.Copy] *)

Module IoFacts.
Import GoIo Spec.

Section Writers.
Context {St Target : Type}.
Variable write : Target → bytes → St → St * (nat * option error).

(** Writers that all took [p] are followed by the next ones. *)
Lemma multiWrite_app ts1 ts2 p st st1 :
  multiWrite write ts1 p st = (st1, (length p, None)) →
  multiWrite write (ts1 ++ ts2) p st = multiWrite write ts2 p st1.
Proof.
  revert st. induction ts1 as [|t ts1 IH]; intros st E; simpl in *.
  - by injection E as ->.
  - destruct (write t p st) as [st' [n [e|]]]; [discriminate|].
    destruct (n =? length p)%nat; [by apply IH | discriminate].
Qed.

(** A writer that fails is the last one written to. *)
Lemma multiWrite_stops t ts p st st' r :
  write t p st = (st', r) → failed r p →
  ∃ e, multiWrite write (t :: ts) p st = (st', (r.1, Some e)).
Proof.
  intros E F. simpl. rewrite E. destruct r as [n [e|]]; simpl.
  - by exists e.
  - destruct F as [F|F]; [done|]. simpl in F.
    apply Nat.eqb_neq in F. rewrite F. by exists ErrShortWrite.
Qed.

(** Without a failing writer, every writer gets [p]. *)
Lemma multiWrite_all ts p st :
  (∀ t st0, ∃ st1, write t p st0 = (st1, (length p, None))) →
  ∃ st', multiWrite write ts p st = (st', (length p, None)).
Proof.
  intros Hok. revert st. induction ts as [|t ts IH]; intros st; simpl.
  - by exists st.
  - destruct (Hok t st) as [st1 ->]. rewrite Nat.eqb_refl. apply IH.
Qed.

Variable dw : bytes → St → St * (nat * option error).

Lemma Copy_app cs1 cs2 st st1 m :
  Copy dw cs1 st = (st1, ([], (m, None))) →
  Copy dw (cs1 ++ cs2) st =
    let '(st2, (rest, (n, e))) := Copy dw cs2 st1 in
    (st2, (rest, ((m + n)%nat, e))).
Proof.
  revert st m. induction cs1 as [|p cs1 IH]; intros st m E; simpl in *.
  - injection E as -> <-. by destruct (Copy dw cs2 st1) as [? [? [? ?]]].
  - destruct (0 <? length p)%nat; [|by apply IH].
    destruct (dw p st) as [st' [nw [e|]]]; [discriminate|].
    destruct (nw =? length p)%nat; [|discriminate].
    destruct (Copy dw cs1 st') as [st'' [rest' [n err]]] eqn:EC.
    injection E as -> -> <- ->.
    rewrite (IH st' n EC).
    destruct (Copy dw cs2 st1) as [? [? [? ?]]]. by rewrite Nat.add_assoc.
Qed.

(** A failed write ends the copy; the chunks behind it stay unread. *)
Lemma Copy_stops p cs st st' n e :
  (0 < length p)%nat → dw p st = (st', (n, Some e)) →
  Copy dw (p :: cs) st = (st', (cs, (n, Some e))).
Proof.
  intros L E. simpl. apply Nat.ltb_lt in L. by rewrite L, E.
Qed.
End Writers.

End IoFacts.

(** ** The interceptor *)

Module PipelineFacts.
Import GoHttp GoIo Proxy Spec Sim Scenario IoFacts.

Section Stages.
Context {W Ref : Type} `{!WriteCloser W Ref} `{!RangeOrder}.
Implicit Types (x : Exchange W Ref) (self : Proxy.t W Ref).

Lemma emit_trace (e : Event Ref) x : trace (emit e x) = trace x ++ [e].
Proof. reflexivity. Qed.

Lemma bind_ok {A B} (m : M A) (k : A → M (W:=W) (Ref:=Ref) B) x x' a :
  m x = (x', Ok a) → bind m k x = k a x'.
Proof. intros E. unfold bind. by rewrite E. Qed.

Lemma bind_panic {A B} (m : M A) (k : A → M (W:=W) (Ref:=Ref) B) x x' e :
  m x = (x', Panic e) → bind m k x = (x', Panic e).
Proof. intros E. unfold bind. by rewrite E. Qed.

Ltac binds := unfold mbind, exchange_bind in *.

(** The Directors run one after the other, never end the exchange and
    leave [dst] alone. *)
Lemma directors_run (ds : list (Director W)) i x :
  ∃ x', rangeOver callDirector i ds x = (x', Ok tt)
        ∧ trace x' = trace x ++ map EvDirector (seq i (length ds))
        ∧ dst x' = dst x.
Proof.
  revert i x. induction ds as [|d ds IH]; intros i x; simpl; binds.
  - exists x. by rewrite app_nil_r.
  - destruct (d (res x) (world x)) as [[w r] err] eqn:Ed.
    set (x1 := emit (EvDirector i) (mkExchange w r (dst x) (trace x))).
    destruct (IH (S i) x1) as (x' & E & T & D).
    exists x'. split; [|split].
    + erewrite bind_ok; [exact E|]. unfold callDirector. by rewrite Ed.
    + rewrite T. unfold x1. rewrite emit_trace. simpl. by rewrite <- app_assoc.
    + by rewrite D.
Qed.

Lemma loggers_run (ls : list (Logger W)) i x :
  ∃ x', rangeOver callLogger i ls x = (x', Ok tt)
        ∧ trace x' = trace x ++ map EvLogger (seq i (length ls))
        ∧ dst x' = dst x.
Proof.
  revert i x. induction ls as [|l ls IH]; intros i x; simpl; binds.
  - exists x. by rewrite app_nil_r.
  - destruct (l (res x) (world x)) as [[w r] err] eqn:El.
    set (x1 := emit (EvLogger i) (mkExchange w r (dst x) (trace x))).
    destruct (IH (S i) x1) as (x' & E & T & D).
    exists x'. split; [|split].
    + erewrite bind_ok; [exact E|]. unfold callLogger. by rewrite El.
    + rewrite T. unfold x1. rewrite emit_trace. simpl. by rewrite <- app_assoc.
    + by rewrite D.
Qed.

(** The Writers: [rets] is what they return, one after the other; the
    sinks collected are the non-nil ones among them, in that order. *)
Lemma writers_run (ws : list (Writer W Ref)) i acc x :
  ∃ x' rets,
    openSinks i ws acc x = (x', Ok (acc ++ omap id rets))
    ∧ length rets = length ws
    ∧ trace x' = trace x ++ imap (λ j r, EvWriter (i + j) r) rets
    ∧ dst x' = dst x.
Proof.
  revert i acc x. induction ws as [|wr ws IH]; intros i acc x; simpl; binds.
  - exists x, []. simpl. by rewrite !app_nil_r.
  - destruct (wr (res x) (world x)) as [[w r] ret] eqn:Ew.
    set (x1 := emit (EvWriter i ret) (mkExchange w r (dst x) (trace x))).
    destruct (IH (S i) (match ret with Some s => acc ++ [s] | None => acc end) x1)
      as (x' & rets & E & L & T & D).
    exists x', (ret :: rets). split; [|split; [|split]].
    + erewrite bind_ok; [|unfold callWriter; by rewrite Ew].
      fold x1. rewrite E. do 2 f_equal.
      destruct ret; simpl; [by rewrite <- app_assoc | done].
    + simpl. by rewrite L.
    + rewrite T. unfold x1. rewrite emit_trace. simpl.
      rewrite <- app_assoc. simpl. rewrite Nat.add_0_r. do 2 f_equal.
      apply imap_ext. intros j r' _. simpl. f_equal. lia.
    + by rewrite D.
Qed.

(** Every collected sink gets one [Close], in the order of collection. *)
Lemma sinks_closed (sinks : list Ref) i x :
  ∃ x', rangeOver closeSink i sinks x = (x', Ok tt)
        ∧ trace x' = trace x ++ map EvSinkClose sinks
        ∧ world x' = foldl (λ w s, sinkClose s w) (world x) sinks
        ∧ dst x' = dst x ∧ res x' = res x.
Proof.
  revert i x. induction sinks as [|s sinks IH]; intros i x; simpl; binds.
  - exists x. by rewrite app_nil_r.
  - set (x1 := emit (EvSinkClose s)
                 (mkExchange (sinkClose s (world x)) (res x) (dst x) (trace x))).
    destruct (IH (S i) x1) as (x' & E & T & Wd & D & R).
    exists x'. split; [|split; [|split; [|split]]].
    + erewrite bind_ok; [exact E|]. reflexivity.
    + rewrite T. unfold x1. rewrite emit_trace. simpl. by rewrite <- app_assoc.
    + by rewrite Wd.
    + by rewrite D.
    + by rewrite R.
Qed.

Lemma writeResponse_some wclosers x b :
  Response.Body (res x) = Some b →
  ∃ x', writeResponse wclosers x = (x', Ok tt)
        ∧ trace x' = trace x ++ [EvCopy]
        ∧ ∃ rest, Response.Body (res x') = Some (Body.mk rest (Body.closed b)).
Proof.
  intros E. unfold writeResponse. rewrite E.
  destruct (Copy _ _ _) as [[w d] [rest r]].
  eexists. split; [reflexivity|]. split; [reflexivity|]. by exists rest.
Qed.

(** [WriteHeader] panics on a code that has not three digits, unless the
    final status has gone out already; in every other case it returns. *)
Lemma WriteHeader_cases code (w : ResponseWriter.t) :
  match ResponseWriter.sent w, ResponseWriter.validCode code with
  | None, false =>
      ResponseWriter.WriteHeader code w
        = Panic ("invalid WriteHeader code " +:+ GoFmt.padZero 0 code)
  | _, _ => ∃ d, ResponseWriter.WriteHeader code w = Ok d
  end.
Proof.
  unfold ResponseWriter.WriteHeader.
  destruct (ResponseWriter.sent w) as [s|]; [by eexists|].
  destruct (ResponseWriter.validCode code); simpl; [|done].
  destruct (ResponseWriter.informational code); by eexists.
Qed.

Lemma commitStatus_ok x d :
  ResponseWriter.WriteHeader (Response.StatusCode (res x)) (dst x) = Ok d →
  commitStatus x
    = (emit (EvWriteHeader (Response.StatusCode (res x)))
         (mkExchange (world x) (res x) d (trace x)), Ok tt).
Proof. intros E. unfold commitStatus. by rewrite E. Qed.

Lemma commitStatus_panic x msg :
  ResponseWriter.WriteHeader (Response.StatusCode (res x)) (dst x) = Panic msg →
  commitStatus x = (x, Panic msg).
Proof. intros E. unfold commitStatus. by rewrite E. Qed.

(** What [intercept] does once [WriteHeader] has returned. *)
Lemma intercept_tail self x3 :
  ∃ (rets : list (option Ref)) (y : Exchange W Ref),
    length rets = length (Writers self)
    ∧ trace y = trace x3 ++ imap EvWriter rets
                  ++ map EvLogger (seq 0 (length (Loggers self)))
    ∧ dst y = dst x3
    ∧ match Response.Body (res y) with
      | Some _ =>
          ∃ x', bind (openSinks 0 (Writers self) []) (λ wclosers,
                  bind (rangeOver callLogger 0 (Loggers self)) (λ _,
                  bind (writeResponse wclosers) (λ _,
                  bind closeBody (λ _,
                  rangeOver closeSink 0 wclosers)))) x3 = (x', Ok tt)
                ∧ trace x' = trace y ++ [EvCopy; EvBodyClose]
                               ++ map EvSinkClose (omap id rets)
                ∧ dst x' = dst (writeResponse (omap id rets) y).1
      | None =>
          bind (openSinks 0 (Writers self) []) (λ wclosers,
            bind (rangeOver callLogger 0 (Loggers self)) (λ _,
            bind (writeResponse wclosers) (λ _,
            bind closeBody (λ _,
            rangeOver closeSink 0 wclosers)))) x3 = (y, Panic nilDeref)
      end.
Proof.
  destruct (writers_run (Writers self) 0 [] x3) as (x4 & rets & E4 & L4 & T4 & D4).
  destruct (loggers_run (Loggers self) 0 x4) as (y & E5 & T5 & D5).
  exists rets, y.
  split; [exact L4|]. split; [by rewrite T5, T4, <- app_assoc|].
  split; [by rewrite D5, D4|].
  binds.
  rewrite (bind_ok _ _ _ _ _ E4).
  rewrite (bind_ok _ _ _ _ _ E5). simpl.
  destruct (Response.Body (res y)) as [b|] eqn:Eb.
  - destruct (writeResponse_some (omap id rets) y b Eb) as (z & Ez & Tz & rest & Bz).
    rewrite (bind_ok _ _ _ _ _ Ez).
    set (z1 := emit EvBodyClose
           (mkExchange (world z)
              (Response.withBody (Some (Body.mk rest (S (Body.closed b)))) (res z))
              (dst z) (trace z))).
    rewrite (bind_ok _ _ z z1 tt) by (unfold closeBody; by rewrite Bz).
    destruct (sinks_closed (omap id rets) 0 z1) as (x' & E' & T' & _ & D' & _).
    exists x'. split; [exact E'|]. split.
    + rewrite T'. unfold z1. rewrite emit_trace. simpl. rewrite Tz.
      rewrite <- !app_assoc. reflexivity.
    + rewrite D', Ez. reflexivity.
  - assert (Ew : writeResponse (omap id rets) y = (y, Ok tt))
      by (unfold writeResponse; by rewrite Eb).
    rewrite (bind_ok _ _ _ _ _ Ew).
    apply bind_panic. unfold closeBody. by rewrite Eb.
Qed.


(** C3, as amended.  The fan-out writes a chunk to the client first and
    then to the sinks in the order they were collected.  The first
    write that fails or comes up short ends the copy on the spot: the
    exchange is left as that write left it ([st3]), the writers behind
    the failing one ([ts2]) do not get the chunk, and the chunks behind
    it ([cs2]) stay unread, for the client as for every sink. *)
Theorem fanOut_stops_at_first_failure
    x (sinks : list Ref) (b : Body.t)
    (cs1 cs2 : list bytes) (p : bytes) (ts1 ts2 : list (Target Ref))
    (t : Target Ref) (st1 st2 st3 : W * ResponseWriter.t) (m : nat)
    (r : nat * option error) :
  Response.Body (res x) = Some b →
  Body.unread b = cs1 ++ p :: cs2 →
  (0 < length p)%nat →
  fanOut sinks = ts1 ++ t :: ts2 →
  Copy (multiWrite writeTarget (fanOut sinks)) cs1 (world x, dst x)
    = (st1, ([], (m, None))) →
  multiWrite writeTarget ts1 p st1 = (st2, (length p, None)) →
  writeTarget t p st2 = (st3, r) →
  failed r p →
  writeResponse sinks x =
    (emit EvCopy
       (mkExchange st3.1
          (Response.withBody (Some (Body.mk cs2 (Body.closed b))) (res x))
          st3.2 (trace x)),
     Ok tt).
Proof.
  intros HB HU HL HT HC HM HW HF.
  unfold writeResponse. rewrite HB, HU.
  rewrite (Copy_app _ cs1 (p :: cs2) _ st1 m HC).
  destruct (multiWrite_stops writeTarget t ts2 p st2 st3 r HW HF) as [e Ee].
  rewrite (Copy_stops _ p cs2 st1 st3 r.1 e HL).
  - by destruct st3.
  - rewrite HT, (multiWrite_app writeTarget ts1 (t :: ts2) p st1 st2 HM). exact Ee.
Qed.
End Stages.

(** The run of the scripted exchange. *)
Lemma scripted_trace :
  trace (intercept scripted (start (Some hello))).1 =
    [EvDirector 0; EvDirector 1; EvCopyHeader; EvWriteHeader 200;
     EvWriter 0 (Some 0%nat); EvWriter 1 None; EvLogger 0; EvCopy;
     EvBodyClose; EvSinkClose 0%nat].
Proof. vm_compute. reflexivity. Qed.


(** The same seen from inside: the copy of the sink that a Logger takes is
    empty, while the sink itself ends up with the whole body. *)
Example logger_sees_empty_sink :
  written <$> heap (world (intercept observed (start (Some hello))).1)
    = [text "hello"; []].
Proof. vm_compute. reflexivity. Qed.

Lemma fanOut_stops_at_first_failure_witness :
  written (ResponseWriter.conn (dst (writeResponse [0; 1]%nat teeOpen).1))
    = text "hel".
Proof.
  erewrite (fanOut_stops_at_first_failure teeOpen [0; 1]%nat hello
              [] [text "lo"] (text "hel") [TClient] [TSink 1%nat] (TSink 0%nat)).
  all: cycle 1.
  - reflexivity.
  - reflexivity.
  - vm_compute. lia.
  - reflexivity.
  - reflexivity.
  - reflexivity.
  - reflexivity.
  - left. discriminate.
  - reflexivity.
Defined.

(** C3 as stated fails: the first sink of [tee] takes no byte, and with
    that the client gets the first chunk of the body only and the second
    sink nothing at all. *)
Lemma failing_sink_stops_delivery :
  let x := (intercept tee (start (Some hello))).1 in
  written (ResponseWriter.conn (dst x)) = text "hel"
  ∧ written (ResponseWriter.conn (dst x)) ≠ concat (Body.unread hello)
  ∧ (written <$> heap (world x)) = [ []; [] ]
  ∧ (closed <$> heap (world x)) = [1; 1]%nat.
Proof. vm_compute. repeat split. discriminate. Qed.

(** C4: a response whose body is nil when the copy is reached (here a
    Director has set it to nil).  The Writer has opened its sink and the
    Logger has run, but [res.Body.Close()] panics and the sink is never
    closed. *)
Theorem intercept_nil_body_faults :
  let '(x, o) := intercept bodyDropped (start (Some hello)) in
  o = Panic nilDeref
  ∧ trace x = [EvDirector 0; EvCopyHeader; EvWriteHeader 200;
               EvWriter 0 (Some 0%nat); EvLogger 0]
  ∧ (closed <$> heap (world x)) = [0%nat].
Proof. vm_compute. repeat split. Qed.

(** The same when the response arrives without a body. *)
Example intercept_no_body_faults :
  let '(x, o) := intercept oneSink (start None) in
  o = Panic nilDeref
  ∧ trace x = [EvCopyHeader; EvWriteHeader 200; EvWriter 0 (Some 0%nat); EvLogger 0]
  ∧ (closed <$> heap (world x)) = [0%nat].
Proof. vm_compute. repeat split. Qed.

(** A body of length zero is no trouble: nothing is copied, the sink is
    closed once. *)
Example intercept_empty_body :
  let '(x, o) := intercept oneSink (start (Some (Body.mk [] 0))) in
  o = Ok tt
  ∧ (closed <$> heap (world x)) = [1%nat]
  ∧ (written <$> heap (world x)) = [ [] ]
  ∧ written (ResponseWriter.conn (dst x)) = [].
Proof. vm_compute. repeat split. Qed.

(** With no failing writer the client and the sink get the whole body. *)
Example intercept_full_body :
  let '(x, o) := intercept oneSink (start (Some hello)) in
  o = Ok tt
  ∧ written (ResponseWriter.conn (dst x)) = text "hello"
  ∧ (written <$> heap (world x)) = [text "hello"]
  ∧ ResponseWriter.sent (dst x) = Some (200%Z, {[ "Content-Type" := ["text/html"] ]}).
Proof. vm_compute. repeat split. Qed.

(** A status code that is none: [WriteHeader] panics.  The headers have
    been copied, but nothing has gone out to the client, and neither the
    Writer nor the Logger has been called. *)
Example intercept_invalid_status :
  let '(x, o) := intercept (statusSet 0) (start (Some hello)) in
  o = Panic "invalid WriteHeader code 0"
  ∧ trace x = [EvDirector 0; EvCopyHeader]
  ∧ ResponseWriter.sent (dst x) = None
  ∧ written (ResponseWriter.conn (dst x)) = []
  ∧ heap (world x) = [].
Proof. vm_compute. repeat split. Qed.

Example intercept_four_digit_status :
  (intercept (statusSet 1000) (start (Some hello))).2
    = Panic "invalid WriteHeader code 1000"
  ∧ (intercept (statusSet (-1)) (start (Some hello))).2
    = Panic "invalid WriteHeader code -1".
Proof. vm_compute. by split. Qed.

(** An informational status code goes out at once and is not the final
    one: that is the 200 the first write of the body brings with it. *)
Example intercept_informational_status :
  let '(x, o) := intercept (statusSet 103) (start (Some hello)) in
  o = Ok tt
  ∧ ResponseWriter.interim (dst x) = [103%Z]
  ∧ ResponseWriter.sent (dst x)
    = Some (200%Z, {[ "Content-Type" := ["text/html"] ]})
  ∧ written (ResponseWriter.conn (dst x)) = text "hello".
Proof. vm_compute. repeat split. Qed.

End PipelineFacts.

(** ** The handler *)

Module HandlerFacts.
Import GoHttp GoIo Proxy Spec Sim Scenario.

(** C8, as amended.  The request handed to the transport keeps the
    method and the body of the inbound request; its protocol is
    HTTP/1.1, it is not marked for closing, its URL has the scheme
    [http] and the inbound [Host] as host.  The headers are not left
    as they were: the inbound [Host] is appended to the values of the
    [Host] header, and every other key is unchanged.  The remaining
    fields are the inbound ones. *)
Theorem outbound_rewrites req u :
  Request.URL req = Some u →
  ∃ out,
    outbound req = Ok out
    ∧ Request.Method out = Request.Method req
    ∧ Request.Body out = Request.Body req
    ∧ (Request.Proto out, Request.ProtoMajor out, Request.ProtoMinor out)
        = ("HTTP/1.1", 1%Z, 1%Z)
    ∧ Request.Close out = false
    ∧ Request.URL out
        = Some (URL.mk "http" (URL.Opaque u) (Request.Host req) (URL.Path u)
                  (URL.RawQuery u) (URL.Fragment u))
    ∧ Values "Host" (Request.Header out)
        = Values "Host" (Request.Header req) ++ [Request.Host req]
    ∧ (∀ k, k ≠ "Host" → Request.Header out !! k = Request.Header req !! k)
    ∧ (Request.ContentLength out, Request.TransferEncoding out, Request.Host out,
       Request.Trailer out, Request.RemoteAddr out, Request.RequestURI out)
        = (Request.ContentLength req, Request.TransferEncoding req, Request.Host req,
           Request.Trailer req, Request.RemoteAddr req, Request.RequestURI req).
Proof.
  intros E. unfold outbound. rewrite E. eexists. split; [reflexivity|]. simpl.
  repeat split.
  - unfold Add, Values. change (CanonicalMIMEHeaderKey "Host") with "Host".
    by rewrite lookup_insert_eq.
  - intros k Hk. unfold Add. change (CanonicalMIMEHeaderKey "Host") with "Host".
    by rewrite lookup_insert_ne.
Qed.

Lemma outbound_rewrites_witness :
  outbound (request "/" "10.0.0.7:51234") = Ok (forwarded "/" "10.0.0.7:51234")
  ∧ ∃ out, outbound (request "/" "10.0.0.7:51234") = Ok out
           ∧ Request.Method out = "GET"
           ∧ Values "Host" (Request.Header out) = ["example.com"].
Proof.
  split; [reflexivity|].
  destruct (outbound_rewrites (request "/" "10.0.0.7:51234")
              (URL.mk "" "" "" "/" "" "") eq_refl)
    as (out & E & M & _ & _ & _ & _ & H & _).
  exists out. split; [exact E|]. split; [exact M|]. exact H.
Defined.

(** C8 as stated fails: the headers of the outbound request are not the
    inbound headers; a [Host] header has come in. *)
Lemma outbound_adds_host_header :
  ∃ out, outbound (request "/" "10.0.0.7:51234") = Ok out
         ∧ Request.Header out ≠ Request.Header (request "/" "10.0.0.7:51234").
Proof.
  eexists. split; [reflexivity|]. simpl. intros E.
  assert (F : Add "Host" "example.com" {[ "Accept" := ["*/*"] ]} !! "Host"
              = ({[ "Accept" := ["*/*"] ]} : Header) !! "Host") by (by rewrite E).
  vm_compute in F. discriminate F.
Qed.

Section Handler.
Context {W Ref : Type} `{!WriteCloser W Ref} `{!RangeOrder}.

(** C2, as amended.  When the round trip fails, [ServeHTTP] panics
    with the error of the transport: the interceptor is not entered,
    no hook is called, and nothing is sent to the client, neither a
    status nor a byte. *)
Theorem ServeHTTP_transport_error (self : Proxy.t W Ref)
    (transport : Transport W) wri req w out w' err :
  outbound req = Ok out →
  transport out w = (w', inr err) →
  ServeHTTP self transport wri req w = mkServed w' wri [] (Panic err).
Proof. intros Eo Et. unfold ServeHTTP. by rewrite Eo, Et. Qed.

(** When it succeeds, the handler is the interceptor on the response. *)
Lemma ServeHTTP_round_trip (self : Proxy.t W Ref)
    (transport : Transport W) wri req w out w' r :
  outbound req = Ok out →
  transport out w = (w', inl r) →
  ServeHTTP self transport wri req w =
    let '(x, o) := intercept self (mkExchange w' r wri []) in
    mkServed (world x) (dst x) (trace x) o.
Proof. intros Eo Et. unfold ServeHTTP. by rewrite Eo, Et. Qed.
End Handler.

Lemma ServeHTTP_transport_error_witness :
  ServeHTTP scripted refusing (ResponseWriter.fresh None)
    (request "/" "10.0.0.7:51234") Sim.empty
  = mkServed Sim.empty (ResponseWriter.fresh None) []
      (Panic "dial tcp: connection refused").
Proof.
  apply (ServeHTTP_transport_error scripted refusing (ResponseWriter.fresh None)
           (request "/" "10.0.0.7:51234") Sim.empty
           (forwarded "/" "10.0.0.7:51234"));
    reflexivity.
Defined.

(** C2 as stated fails: on a refused connection the handler does not
    answer the client; it panics. *)
Lemma ServeHTTP_does_not_report :
  ¬ answered (ServeHTTP scripted refusing (ResponseWriter.fresh None)
                (request "/" "10.0.0.7:51234") Sim.empty).
Proof. intros [H _]. vm_compute in H. discriminate H. Qed.

End HandlerFacts.

(** ** Package [save] *)

Module SaveFacts.
Import GoHttp GoIo Proxy Spec Sim Scenario.

Section Head.
Context {W File : Type} `{GoOs.OS W File}.
Variable mimextExt : string → string.
Variable g : Globals.
Variable pathDir : string → string.
Variable wireLines : Header → list bytes.

(** C9.  For every response (with a request and a URL to name the file
    after) [Head] returns the nil sink, whether [os.Create] has opened
    the [.head] file, in which case the headers are written to it and
    the file is closed before [Head] returns, or has failed: the value
    returned is the same in both cases. *)
Theorem Head_returns_nil res w u :
  targetURL res = Ok u →
  ∃ archive w1 e1 w2 fp,
    ArchiveFile mimextExt g res = Ok archive
    ∧ Workdir (pathDir (archive +:+ ".head")) w = (w1, e1)
    ∧ GoOs.Create (archive +:+ ".head") w1 = (w2, fp)
    ∧ Save.Head mimextExt g pathDir wireLines res w =
        (match fp with
         | Some f =>
             sinkClose f (Save.headerWrite f (wireLines (Response.Header res)) w2).1
         | None => w2
         end, Ok None).
Proof.
  intros E. unfold Save.Head.
  destruct (ArchiveFile mimextExt g res) as [archive|m] eqn:EA.
  2: { unfold ArchiveFile in EA. rewrite E in EA. discriminate EA. }
  destruct (Workdir (pathDir (archive +:+ ".head")) w) as [w1 e1] eqn:E1.
  destruct (GoOs.Create (archive +:+ ".head") w1) as [w2 fp] eqn:E2.
  exists archive, w1, e1, w2, fp.
  split; [reflexivity|]. split; [exact E1|]. split; [exact E2|].
  destruct fp as [f|]; [|done].
  by destruct (Save.headerWrite f (wireLines (Response.Header res)) w2).
Qed.
End Head.

Lemma Head_returns_nil_witness :
  (Save.Head (File:=nat) htmlExt initial dirname lines (page None) Sim.empty).2
    = Ok None.
Proof.
  destruct (Head_returns_nil (File:=nat) htmlExt initial dirname lines (page None)
              Sim.empty (URL.mk "http" "" "example.com" "/" "" "") eq_refl)
    as (archive & w1 & e1 & w2 & fp & _ & _ & _ & E).
  rewrite E. reflexivity.
Defined.

(** Both ways through [Head]: the file written and closed, and the file
    refused; the value returned is the same. *)
Example Head_writes_and_closes :
  let '(w, r) := Save.Head (File:=nat) htmlExt initial dirname lines (page None)
                   Sim.empty in
  r = Ok None
  ∧ Sim.files w !! "archive/example.com/index.html.head" = Some 0%nat
  ∧ Sim.heap w = [mkDest (text "Content-Type: text/html") None 1].
Proof. vm_compute. repeat split. Qed.

Example Head_open_refused :
  let '(w, r) := Save.Head (File:=nat) htmlExt initial dirname lines (page None)
                   readOnly in
  r = Ok None ∧ Sim.heap w = []
  ∧ Sim.files w !! "archive/example.com/index.html.head" = None.
Proof. vm_compute. repeat split. Qed.

End SaveFacts.

(** ** The timestamp of [now] *)

Module StampFacts.
Import GoFmt Proxy Spec Scenario StringFacts.

Lemma length_append s1 s2 :
  String.length (s1 +:+ s2) = (String.length s1 + String.length s2)%nat.
Proof.
  induction s1 as [|a s1 IH]; [reflexivity|].
  rewrite append_cons. simpl. by rewrite IH.
Qed.

Lemma fixedWidth_length w n : String.length (fixedWidth w n) = w.
Proof.
  revert n. induction w as [|w IH]; intros n; [reflexivity|].
  change (fixedWidth (S w) n)
    with (fixedWidth w (n / 10) +:+ String (digit (n mod 10)) "").
  rewrite length_append, IH. simpl. lia.
Qed.

Lemma countDigits_le fuel n w :
  (1 ≤ w)%nat → (0 ≤ n < 10 ^ Z.of_nat w)%Z → (countDigits fuel n ≤ w)%nat.
Proof.
  revert n w. induction fuel as [|f IH]; intros n w Hw Hn; simpl; [lia|].
  destruct (Z.ltb_spec n 10) as [|Hge]; [lia|].
  destruct w as [|w]; [lia|].
  destruct w as [|w].
  { change (10 ^ Z.of_nat 1)%Z with 10%Z in Hn. lia. }
  apply le_n_S, IH; [lia|].
  rewrite Nat2Z.inj_succ, Z.pow_succ_r in Hn by lia.
  split; [apply Z.div_pos; lia|].
  apply Z.div_lt_upper_bound; lia.
Qed.

(** Inside its width, [%0wd] prints exactly [w] digits. *)
Lemma padZero_fixedWidth w n :
  (1 ≤ w)%nat → (0 ≤ n < 10 ^ Z.of_nat w)%Z → padZero w n = fixedWidth w n.
Proof.
  intros Hw Hn. unfold padZero.
  destruct (Z.ltb_spec n 0) as [|_]; [lia|].
  rewrite Nat.max_l; [done|]. by apply countDigits_le.
Qed.

Lemma thenBy_Eq_r c : thenBy c Eq = c.
Proof. by destruct c. Qed.

Lemma compare_refl s : (s ?= s)%string = Eq.
Proof.
  induction s as [|c s IH]; [reflexivity|].
  simpl. unfold Ascii.compare. by rewrite N.compare_refl.
Qed.

(** Strings that start with pieces of the same length compare by the
    pieces first. *)
Lemma compare_append a1 a2 b1 b2 :
  String.length a1 = String.length a2 →
  (a1 +:+ b1 ?= a2 +:+ b2)%string = thenBy (a1 ?= a2)%string (b1 ?= b2)%string.
Proof.
  revert a2. induction a1 as [|c1 a1 IH]; intros [|c2 a2] L; try discriminate L.
  - reflexivity.
  - rewrite !append_cons. simpl. destruct (Ascii.compare c1 c2); try reflexivity.
    apply IH. by injection L.
Qed.

Lemma compare_same_prefix s b1 b2 :
  (s +:+ b1 ?= s +:+ b2)%string = (b1 ?= b2)%string.
Proof. by rewrite compare_append, compare_refl. Qed.

Lemma digit_compare a b :
  (0 ≤ a < 10)%Z → (0 ≤ b < 10)%Z →
  Ascii.compare (digit a) (digit b) = (a ?= b)%Z.
Proof.
  intros Ha Hb. unfold Ascii.compare, digit, ascii_of_nat.
  rewrite !N_ascii_embedding by lia.
  destruct (Z.compare_spec a b) as [E|E|E].
  - subst. apply N.compare_refl.
  - apply N.compare_lt_iff. lia.
  - apply N.compare_gt_iff. lia.
Qed.

Lemma compare_div_mod n m :
  (0 ≤ n)%Z → (0 ≤ m)%Z →
  thenBy (n / 10 ?= m / 10)%Z (n mod 10 ?= m mod 10)%Z = (n ?= m)%Z.
Proof.
  intros Hn Hm.
  pose proof (Z.div_mod n 10 ltac:(lia)). pose proof (Z.div_mod m 10 ltac:(lia)).
  pose proof (Z.mod_pos_bound n 10 ltac:(lia)).
  pose proof (Z.mod_pos_bound m 10 ltac:(lia)).
  destruct (Z.compare_spec (n / 10) (m / 10));
    destruct (Z.compare_spec (n mod 10) (m mod 10));
    destruct (Z.compare_spec n m); simpl; try reflexivity; lia.
Qed.

Lemma compare_single a b :
  (String a "" ?= String b "")%string = Ascii.compare a b.
Proof. simpl. by destruct (Ascii.compare a b). Qed.

Lemma fixedWidth_S w n :
  fixedWidth (S w) n = fixedWidth w (n / 10) +:+ String (digit (n mod 10)) "".
Proof. reflexivity. Qed.

(** Numbers printed in the same width compare as numbers. *)
Lemma compare_fixedWidth w n m :
  (0 ≤ n < 10 ^ Z.of_nat w)%Z → (0 ≤ m < 10 ^ Z.of_nat w)%Z →
  (fixedWidth w n ?= fixedWidth w m)%string = (n ?= m)%Z.
Proof.
  revert n m. induction w as [|w IH]; intros n m Hn Hm.
  - change (10 ^ Z.of_nat 0)%Z with 1%Z in *.
    assert (n = 0%Z) as -> by lia. assert (m = 0%Z) as -> by lia. reflexivity.
  - rewrite Nat2Z.inj_succ, Z.pow_succ_r in Hn, Hm by lia.
    rewrite !fixedWidth_S.
    rewrite compare_append by (by rewrite !fixedWidth_length).
    rewrite IH.
    + rewrite compare_single, digit_compare by (apply Z.mod_pos_bound; lia).
      apply compare_div_mod; lia.
    + split; [apply Z.div_pos; lia | apply Z.div_lt_upper_bound; lia].
    + split; [apply Z.div_pos; lia | apply Z.div_lt_upper_bound; lia].
Qed.

(** The leaf name in closed form. *)
Lemma now_eq t :
  wellFormed t →
  now t = fixedWidth 4 (Time.Year t) +:+ fixedWidth 2 (Time.Month t)
          +:+ fixedWidth 2 (Time.Day t) +:+ "-"
          +:+ fixedWidth 2 (Time.Hour t) +:+ fixedWidth 2 (Time.Minute t)
          +:+ fixedWidth 2 (Time.Second t) +:+ "-"
          +:+ fixedWidth 9 (Time.Nanosecond t) +:+ ".bin".
Proof.
  intros (HY & HM & HD & Hh & Hm & Hs & Hn). unfold now.
  rewrite !padZero_fixedWidth by (simpl; lia).
  by rewrite !append_assoc.
Qed.

(** X5.  The leaf names all have the same length. *)
Lemma now_length t : wellFormed t → String.length (now t) = 29%nat.
Proof.
  intros Ht. rewrite (now_eq t Ht).
  rewrite !length_append, !fixedWidth_length. reflexivity.
Qed.

(** The leaf names sort in the order of the clock readings. *)
Lemma now_sorts_chronologically t1 t2 :
  wellFormed t1 → wellFormed t2 →
  (now t1 ?= now t2)%string = compareTime t1 t2.
Proof.
  intros H1 H2. rewrite (now_eq t1 H1), (now_eq t2 H2).
  destruct H1 as (HY1 & HM1 & HD1 & Hh1 & Hm1 & Hs1 & Hn1).
  destruct H2 as (HY2 & HM2 & HD2 & Hh2 & Hm2 & Hs2 & Hn2).
  unfold compareTime.
  repeat (first
    [ rewrite compare_same_prefix
    | rewrite compare_append by (by rewrite !fixedWidth_length);
      rewrite compare_fixedWidth by (simpl; lia) ]).
  by rewrite thenBy_Eq_r.
Qed.

Example now_sorts_example :
  (now clock ?= now later)%string = Lt ∧ compareTime clock later = Lt.
Proof. vm_compute. by split. Qed.

End StampFacts.

(** ** The file stem and the archive name *)

Module StemFacts.
Import GoHttp Proxy Spec Derived Scenario StringFacts PathFacts.

Lemma TrimLeft_first s : firstChar (GoStrings.TrimLeft s "/") ≠ Some "/"%char.
Proof.
  induction s as [|c s IH]; [discriminate|].
  simpl. destruct (Ascii.eqb c "/") eqn:E; [exact IH|].
  simpl. intros [= ->]. discriminate E.
Qed.

Lemma TrimRight_first s :
  firstChar s ≠ Some "/"%char → firstChar (GoStrings.TrimRight s "/") ≠ Some "/"%char.
Proof.
  destruct s as [|c s]; [done|]. simpl. intros Hc.
  destruct (GoStrings.TrimRight s "/"); [|exact Hc].
  destruct (Ascii.eqb c "/"); [discriminate | exact Hc].
Qed.

Lemma TrimRight_last s : lastChar (GoStrings.TrimRight s "/") ≠ Some "/"%char.
Proof.
  induction s as [|c s IH]; [discriminate|].
  simpl. destruct (GoStrings.TrimRight s "/") as [|c' r].
  - destruct (Ascii.eqb c "/") eqn:E; [discriminate|].
    simpl. intros [= ->]. discriminate E.
  - exact IH.
Qed.

(** A string without outer slashes is left as it is. *)
Lemma TrimRight_id s :
  lastChar s ≠ Some "/"%char → GoStrings.TrimRight s "/" = s.
Proof.
  induction s as [|c s IH]; [done|]. intros Hl. simpl.
  destruct s as [|c' s'].
  - simpl. destruct (Ascii.eqb_spec c "/") as [->|]; [done|reflexivity].
  - rewrite IH by exact Hl. reflexivity.
Qed.

Lemma TrimLeft_id s :
  firstChar s ≠ Some "/"%char → GoStrings.TrimLeft s "/" = s.
Proof.
  destruct s as [|c s]; [done|]. simpl. intros Hc.
  destruct (Ascii.eqb_spec c "/") as [->|]; [done|reflexivity].
Qed.

Lemma Trim_slashes n : GoStrings.Trim (slashes n) "/" = "".
Proof.
  unfold GoStrings.Trim.
  assert (GoStrings.TrimLeft (slashes n) "/" = "") as ->; [|reflexivity].
  induction n as [|n IH]; [reflexivity|exact IH].
Qed.

(** The stem is never empty and has no slash at either end. *)
Lemma stem_shape u :
  stem u ≠ "" ∧ firstChar (stem u) ≠ Some "/"%char
  ∧ lastChar (stem u) ≠ Some "/"%char.
Proof.
  unfold stem.
  destruct (String.eqb_spec (GoStrings.Trim (URL.Path u) "/") "") as [E|E].
  - repeat split; discriminate.
  - split; [exact E|]. unfold GoStrings.Trim. split.
    + apply TrimRight_first, TrimLeft_first.
    + apply TrimRight_last.
Qed.

Lemma SplitN2_head s sep : ∃ a, GoStrings.SplitN2 s sep !! 0%nat = Some a.
Proof. unfold GoStrings.SplitN2. destruct (GoStrings.afterFirst sep s); eauto. Qed.

(** [ClientFile] in closed form. *)
Lemma ClientFile_eq g res u :
  targetURL res = Ok u →
  ∃ a, ∀ t, ClientFile g t res =
         Ok (ClientDir g +:+ PS +:+ a +:+ PS +:+ URL.Host u +:+ PS +:+ stem u
             +:+ PS +:+ now t).
Proof.
  unfold targetURL, ClientFile.
  destruct (Response.Request res) as [req|]; [|discriminate].
  destruct (Request.URL req) as [u'|]; [|discriminate]. intros [= ->].
  destruct (SplitN2_head (Request.RemoteAddr req) ":") as [a ->].
  by exists a.
Qed.

Lemma ClientFile_has_URL g t res p :
  ClientFile g t res = Ok p → ∃ u, targetURL res = Ok u.
Proof.
  unfold targetURL, ClientFile.
  destruct (Response.Request res) as [req|]; [|discriminate].
  destruct (Request.URL req) as [u|]; [eauto|discriminate].
Qed.

Section Resolvers.
Variable mimextExt : string → string.
Variable g : Globals.

(** X1.  Both resolvers put the same stem below the host; the stem is never
    empty and neither begins nor ends with a slash. *)
Theorem resolvers_share_stem t res u :
  targetURL res = Ok u →
  ∃ s rest a,
    s ≠ "" ∧ firstChar s ≠ Some "/"%char ∧ lastChar s ≠ Some "/"%char
    ∧ ArchiveFile mimextExt g res =
        Ok (ArchiveDir g +:+ PS +:+ URL.Host u +:+ PS +:+ s +:+ rest)
    ∧ ClientFile g t res =
        Ok (ClientDir g +:+ PS +:+ a +:+ PS +:+ URL.Host u +:+ PS +:+ s
            +:+ PS +:+ now t).
Proof.
  intros E. destruct (ClientFile_eq g res u E) as [a Ea]. specialize (Ea t).
  destruct (stem_shape u) as (S1 & S2 & S3).
  exists (stem u).
  exists (if String.eqb (GoPath.Ext (stem u)) ""
          then "." +:+ mimextExt (Get "Content-Type" (Response.Header res))
               +:+ gzSuffix (Response.Header res)
          else gzSuffix (Response.Header res)), a.
  do 3 (split; [assumption|]). split; [|exact Ea].
  rewrite (ArchiveFile_eq mimextExt g res u E).
  destruct (String.eqb (GoPath.Ext (stem u)) ""); [|reflexivity].
  by rewrite !append_assoc.
Qed.

(** X2.  A URL path of slashes only, the empty path among them, is filed under
    the stem [index]: with the looked-up extension in the archive, as a
    directory of its own for the client. *)
Theorem root_path_is_index t res u n :
  targetURL res = Ok u → URL.Path u = slashes n →
  ArchiveFile mimextExt g res =
    Ok (ArchiveDir g +:+ PS +:+ URL.Host u +:+ PS +:+ "index" +:+ "."
        +:+ mimextExt (Get "Content-Type" (Response.Header res))
        +:+ gzSuffix (Response.Header res))
  ∧ ∃ a, ClientFile g t res =
           Ok (ClientDir g +:+ PS +:+ a +:+ PS +:+ URL.Host u +:+ PS +:+ "index"
               +:+ PS +:+ now t).
Proof.
  intros E HP.
  assert (Hs : stem u = "index") by (unfold stem; by rewrite HP, Trim_slashes).
  split.
  - rewrite (ArchiveFile_eq mimextExt g res u E), Hs.
    change (String.eqb (GoPath.Ext "index") "") with true. cbv iota.
    by rewrite !append_assoc.
  - destruct (ClientFile_eq g res u E) as [a Ea]. exists a. by rewrite Ea, Hs.
Qed.

(** X4.  With [Content-Encoding: gzip] the archive path is the path of the
    same resource without that encoding, followed by [.gz]; any other
    value of the header, [GZIP] for one, adds nothing. *)
Theorem gzip_appends_gz res1 res2 u1 u2 :
  targetURL res1 = Ok u1 → targetURL res2 = Ok u2 →
  URL.Path u1 = URL.Path u2 → URL.Host u1 = URL.Host u2 →
  Get "Content-Type" (Response.Header res1)
    = Get "Content-Type" (Response.Header res2) →
  Get "Content-Encoding" (Response.Header res1) = "gzip" →
  Get "Content-Encoding" (Response.Header res2) ≠ "gzip" →
  ∃ p, ArchiveFile mimextExt g res2 = Ok p
       ∧ ArchiveFile mimextExt g res1 = Ok (p +:+ ".gz").
Proof.
  intros E1 E2 HP HH HT G1 G2.
  rewrite (ArchiveFile_eq mimextExt g res1 u1 E1), (ArchiveFile_eq mimextExt g res2 u2 E2).
  unfold gzSuffix. rewrite G1.
  apply String.eqb_neq in G2. rewrite G2.
  change (String.eqb "gzip" "gzip") with true. cbv iota.
  assert (Hs : stem u1 = stem u2) by (unfold stem; by rewrite HP).
  rewrite Hs, HH, HT. eexists. split; [reflexivity|].
  by rewrite append_nil_r, !append_assoc.
Qed.
End Resolvers.
End StemFacts.

(** ** Paths that have an extension *)

Module ExtFacts.
Import GoHttp Proxy Spec Derived Scenario StringFacts PathFacts StemFacts StampFacts.

Lemma list_ascii_of_string_app a b :
  list_ascii_of_string (a +:+ b) = list_ascii_of_string a ++ list_ascii_of_string b.
Proof.
  induction a as [|c a IH]; [reflexivity|].
  rewrite append_cons. simpl. by rewrite IH.
Qed.

Lemma contains_false_Forall s :
  GoStrings.contains "/" s = false →
  Forall (λ c, Ascii.eqb c "/" = false) (list_ascii_of_string s).
Proof.
  induction s as [|c s IH]; simpl; [constructor|].
  destruct (Ascii.eqb c "/") eqn:E; [discriminate|].
  intros Hc. constructor; [exact E | by apply IH].
Qed.

(** Scanning back from the end, the loop of [path.Ext] finds a dot before
    it can meet a slash. *)
Lemma extScan_finds_dot l r suffix :
  Forall (λ c, Ascii.eqb c "/" = false) l →
  GoPath.extScan (l ++ "."%char :: r) suffix ≠ "".
Proof.
  intros Hl. revert suffix. induction Hl as [|c l Hc Hl IH]; intros suffix; simpl.
  - discriminate.
  - rewrite Hc. destruct (Ascii.eqb c "."); [discriminate | apply IH].
Qed.

Lemma Ext_after_dot d e :
  GoStrings.contains "/" e = false → GoPath.Ext (d +:+ "." +:+ e) ≠ "".
Proof.
  intros He. unfold GoPath.Ext.
  rewrite !list_ascii_of_string_app, !rev_app_distr. simpl.
  rewrite <- app_assoc. simpl.
  apply extScan_finds_dot, Forall_rev. by apply contains_false_Forall.
Qed.

Lemma lastChar_app a b : b ≠ "" → lastChar (a +:+ b) = lastChar b.
Proof.
  intros Hb. induction a as [|c a IH]; [reflexivity|].
  rewrite append_cons. simpl. rewrite IH.
  destruct (a +:+ b) eqn:E; [|reflexivity].
  destruct a; [by subst | discriminate].
Qed.

Lemma lastChar_no_slash e c :
  GoStrings.contains "/" e = false → lastChar e = Some c → c ≠ "/"%char.
Proof.
  induction e as [|c' e IH]; [discriminate|]. simpl.
  destruct (Ascii.eqb_spec c' "/") as [|Hne]; [discriminate|].
  intros He. destruct e as [|c'' e'].
  - intros [= <-]. exact Hne.
  - by apply IH.
Qed.

Lemma firstChar_app a b : a ≠ "" → firstChar (a +:+ b) = firstChar a.
Proof. by destruct a. Qed.

Section Kept.
Variable mimextExt : string → string.
Variable g : Globals.

(** X3.  A URL path [/d.e], with no slash in [e], already has an extension:
    it is archived under its own name, whatever the Content-Type is and
    whatever the extension lookup would give for it. *)
Theorem extension_is_kept res u d e :
  targetURL res = Ok u →
  URL.Path u = "/" +:+ d +:+ "." +:+ e →
  firstChar d ≠ Some "/"%char →
  GoStrings.contains "/" e = false →
  ArchiveFile mimextExt g res =
    Ok (ArchiveDir g +:+ PS +:+ URL.Host u +:+ PS +:+ d +:+ "." +:+ e
        +:+ gzSuffix (Response.Header res)).
Proof.
  intros E HP Hd He.
  assert (Hs : stem u = d +:+ "." +:+ e).
  { unfold stem, GoStrings.Trim. rewrite HP.
    change (GoStrings.TrimLeft ("/" +:+ d +:+ "." +:+ e) "/")
      with (GoStrings.TrimLeft (d +:+ "." +:+ e) "/").
    rewrite TrimLeft_id.
    2: { destruct d as [|c d]; [discriminate | exact Hd]. }
    rewrite TrimRight_id.
    2: { rewrite lastChar_app by discriminate.
         destruct e as [|c e]; [discriminate|].
         change ("." +:+ String c e) with (String "." (String c e)).
         change (lastChar (String "." (String c e))) with (lastChar (String c e)).
         intros Hl. by apply (lastChar_no_slash _ _ He) in Hl. }
    destruct (String.eqb_spec (d +:+ "." +:+ e) "") as [E0|]; [|reflexivity].
    destruct d; discriminate E0. }
  rewrite (ArchiveFile_eq mimextExt g res u E), Hs.
  pose proof (Ext_after_dot d e He) as Hx.
  apply String.eqb_neq in Hx. rewrite Hx.
  by rewrite !append_assoc.
Qed.
End Kept.

End ExtFacts.

(** ** Client paths in time *)

Module ClientFacts.
Import GoHttp Proxy Spec Derived Scenario StringFacts PathFacts StemFacts StampFacts.

Lemma thenBy_Eq c d : thenBy c d = Eq → c = Eq ∧ d = Eq.
Proof. by destruct c. Qed.

(** Clock readings that compare equal are the same reading. *)
Lemma compareTime_Eq a b : compareTime a b = Eq → a = b.
Proof.
  unfold compareTime. intros H.
  repeat (apply thenBy_Eq in H as [?%Z.compare_eq H]).
  apply Z.compare_eq in H.
  destruct a, b; simpl in *; by subst.
Qed.


(** X7.  At two different clock readings one exchange never gets the same
    client path. *)
Theorem ClientFile_distinct_times g t1 t2 res p1 p2 :
  wellFormed t1 → wellFormed t2 → t1 ≠ t2 →
  ClientFile g t1 res = Ok p1 → ClientFile g t2 res = Ok p2 →
  p1 ≠ p2.
Proof.
  intros W1 W2 Hne E1 E2 ->. apply Hne, compareTime_Eq.
  destruct (ClientFile_has_URL g t1 res p2 E1) as [u Eu].
  destruct (ClientFile_eq g res u Eu) as [a Ea].
  rewrite Ea in E1, E2. rewrite <- E2 in E1. injection E1 as E1.
  repeat (apply String.app_inj in E1).
  rewrite <- (now_sorts_chronologically t1 t2 W1 W2), E1.
  apply compare_refl.
Qed.

End ClientFacts.

(** ** Registration and the commit *)

Module RelayFacts.
Import GoHttp GoIo Proxy Spec Derived Sim Scenario IoFacts PipelineFacts.

Section Relay.
Context {W Ref : Type} `{!WriteCloser W Ref} `{!RangeOrder}.
Implicit Types (x : Exchange W Ref) (self : Proxy.t W Ref).

(** *** Registration *)

Lemma register_lists (hs : list (Hook (W:=W) (Ref:=Ref))) self :
  Writers (foldl register self hs) = Writers self ++ writersOf hs
  ∧ Directors (foldl register self hs) = Directors self ++ directorsOf hs
  ∧ Loggers (foldl register self hs) = Loggers self ++ loggersOf hs
  ∧ Bind (foldl register self hs) = Bind self.
Proof.
  revert self. induction hs as [|h hs IH]; intros self; simpl.
  - by rewrite !app_nil_r.
  - destruct (IH (register self h)) as (Hw & Hd & Hl & Hb).
    rewrite Hw, Hd, Hl, Hb.
    unfold writersOf, directorsOf, loggersOf.
    destruct h; simpl; by rewrite <- ?app_assoc.
Qed.

(** X11.  However the calls of [AddWriter], [AddDirector] and [AddLogger] are
    interleaved, each list of the proxy holds the hooks of its kind in the
    order they were added, and the bind address stays the default. *)
Theorem registration_keeps_order (hs : list (Hook (W:=W) (Ref:=Ref))) :
  Writers (registerAll hs) = writersOf hs
  ∧ Directors (registerAll hs) = directorsOf hs
  ∧ Loggers (registerAll hs) = loggersOf hs
  ∧ Bind (registerAll hs) = "0.0.0.0:9999".
Proof. exact (register_lists hs New). Qed.

(** *** What is committed stays committed *)

Lemma writeTarget_sent (t : Target Ref) p (st : W * ResponseWriter.t) s :
  ResponseWriter.sent st.2 = Some s →
  ResponseWriter.sent (writeTarget t p st).1.2 = Some s.
Proof.
  intros Hs. destruct st as [w d]. destruct t as [|r]; simpl in *.
  - unfold ResponseWriter.Write. rewrite Hs.
    by destruct (destWrite p (ResponseWriter.conn d)).
  - by destruct (sinkWrite r p w).
Qed.

Lemma multiWrite_sent (ts : list (Target Ref)) p (st : W * ResponseWriter.t) s :
  ResponseWriter.sent st.2 = Some s →
  ResponseWriter.sent (multiWrite writeTarget ts p st).1.2 = Some s.
Proof.
  revert st. induction ts as [|t ts IH]; intros st Hs; simpl; [done|].
  pose proof (writeTarget_sent t p st s Hs) as H1.
  destruct (writeTarget t p st) as [st' [n [e|]]]; simpl in *; [done|].
  destruct (n =? length p)%nat; [by apply IH | done].
Qed.

Lemma Copy_sent (ts : list (Target Ref)) cs (st : W * ResponseWriter.t) s :
  ResponseWriter.sent st.2 = Some s →
  ResponseWriter.sent (Copy (multiWrite writeTarget ts) cs st).1.2 = Some s.
Proof.
  revert st. induction cs as [|p cs IH]; intros st Hs; simpl; [done|].
  destruct (0 <? length p)%nat; [|by apply IH].
  pose proof (multiWrite_sent ts p st s Hs) as H1.
  destruct (multiWrite writeTarget ts p st) as [st' [n [e|]]]; simpl in *; [done|].
  destruct (n =? length p)%nat; [|done].
  pose proof (IH st' H1) as H2.
  by destruct (Copy (multiWrite writeTarget ts) cs st') as [st'' [rest [m err]]].
Qed.

Lemma writeTarget_interim (t : Target Ref) p (st : W * ResponseWriter.t) :
  ResponseWriter.interim (writeTarget t p st).1.2 = ResponseWriter.interim st.2.
Proof.
  destruct st as [w d]. destruct t as [|r]; simpl.
  - unfold ResponseWriter.Write.
    destruct (ResponseWriter.sent d);
      by destruct (destWrite p _).
  - by destruct (sinkWrite r p w).
Qed.

Lemma multiWrite_interim (ts : list (Target Ref)) p (st : W * ResponseWriter.t) :
  ResponseWriter.interim (multiWrite writeTarget ts p st).1.2
    = ResponseWriter.interim st.2.
Proof.
  revert st. induction ts as [|t ts IH]; intros st; simpl; [done|].
  pose proof (writeTarget_interim t p st) as H1.
  destruct (writeTarget t p st) as [st' [n [e|]]]; simpl in *; [done|].
  destruct (n =? length p)%nat; [by rewrite IH | done].
Qed.

Lemma Copy_interim (ts : list (Target Ref)) cs (st : W * ResponseWriter.t) :
  ResponseWriter.interim (Copy (multiWrite writeTarget ts) cs st).1.2
    = ResponseWriter.interim st.2.
Proof.
  revert st. induction cs as [|p cs IH]; intros st; simpl; [done|].
  destruct (0 <? length p)%nat; [|by apply IH].
  pose proof (multiWrite_interim ts p st) as H1.
  destruct (multiWrite writeTarget ts p st) as [st' [n [e|]]]; simpl in *; [done|].
  destruct (n =? length p)%nat; [|done].
  pose proof (IH st') as H2.
  destruct (Copy (multiWrite writeTarget ts) cs st') as [st'' [rest [m err]]].
  simpl in *. by rewrite H2.
Qed.

Lemma writeResponse_sent sinks x s :
  ResponseWriter.sent (dst x) = Some s →
  ResponseWriter.sent (dst (writeResponse sinks x).1) = Some s.
Proof.
  intros Hs. unfold writeResponse.
  destruct (Response.Body (res x)) as [b|]; [|done].
  pose proof (Copy_sent (fanOut sinks) (Body.unread b) (world x, dst x) s Hs) as H1.
  by destruct (Copy _ _ _) as [[w d] [rest r]].
Qed.

Lemma WriteHeader_final code (w : ResponseWriter.t) :
  (200 ≤ code ≤ 999)%Z → ResponseWriter.sent w = None →
  ResponseWriter.WriteHeader code w = Ok (ResponseWriter.commit code w).
Proof.
  intros Hc Hs. unfold ResponseWriter.WriteHeader. rewrite Hs.
  unfold ResponseWriter.validCode, ResponseWriter.informational.
  assert ((100 <=? code)%Z = true) as -> by lia.
  assert ((code <=? 999)%Z = true) as -> by lia.
  assert ((code <=? 199)%Z = false) as -> by lia.
  reflexivity.
Qed.

(** After the Directors, the copy of the headers and [WriteHeader], the
    client has been sent what [committed] says. *)
Lemma commit_sent ds x :
  is_Some (ResponseWriter.sent (dst x))
  ∨ (200 ≤ Response.StatusCode (res (afterDirectors ds x)) ≤ 999)%Z →
  ∃ d,
    rangeOver callDirector 0 ds x = (afterDirectors ds x, Ok tt)
    ∧ ResponseWriter.WriteHeader
        (Response.StatusCode (res (commitHeaders (afterDirectors ds x)).1))
        (dst (commitHeaders (afterDirectors ds x)).1) = Ok d
    ∧ ResponseWriter.sent d = Some (committed ds x).
Proof.
  intros Hx.
  destruct (directors_run ds 0 x) as (x1 & E1 & _ & D1).
  unfold committed, afterDirectors in *. rewrite E1 in *. simpl in *.
  rewrite D1.
  destruct (ResponseWriter.sent (dst x)) as [s|] eqn:Es.
  - eexists. split; [reflexivity|]. split; reflexivity.
  - destruct Hx as [[s Hs]|Hc]; [discriminate Hs|].
    eexists. split; [reflexivity|]. split.
    + by apply WriteHeader_final.
    + reflexivity.
Qed.


End Relay.
End RelayFacts.

(** ** Delivery without a failing writer *)

Module DeliveryFacts.
Import GoHttp GoIo Proxy Spec Derived Sim Scenario IoFacts PipelineFacts RelayFacts.

Section Delivery.
Context {W Ref : Type} `{!WriteCloser W Ref} `{!RangeOrder}.
Implicit Types (x : Exchange W Ref) (self : Proxy.t W Ref).

Lemma sinks_write_ok Inv (sinks : list Ref) p w d :
  accepting Inv sinks → Inv w →
  ∃ w', multiWrite writeTarget (map TSink sinks) p (w, d)
        = ((w', d), (length p, None))
        ∧ Inv w' ∧ (sinks = [] → w' = w).
Proof.
  revert w. induction sinks as [|s sinks IH]; intros w Ha Hi; simpl.
  - by exists w.
  - destruct (Ha s p w) as (w1 & E1 & Hi1); [apply elem_of_cons; by left|done|].
    rewrite E1. simpl. rewrite Nat.eqb_refl.
    destruct (IH w1) as (w' & E & Hi' & _); [|done|].
    { intros s' p' w0 Hs'. apply Ha, elem_of_cons. by right. }
    exists w'. split; [exact E|]. split; [exact Hi' | discriminate].
Qed.

Lemma fanOut_write_ok Inv (sinks : list Ref) p w d :
  room (ResponseWriter.conn d) = None → accepting Inv sinks → Inv w →
  ∃ w' d',
    multiWrite writeTarget (fanOut sinks) p (w, d) = ((w', d'), (length p, None))
    ∧ ResponseWriter.conn d'
      = mkDest (written (ResponseWriter.conn d) ++ p) None
          (closed (ResponseWriter.conn d))
    ∧ ResponseWriter.header d' = ResponseWriter.header d
    ∧ Inv w' ∧ (sinks = [] → w' = w).
Proof.
  intros Hr Ha Hi. unfold fanOut. simpl.
  unfold ResponseWriter.Write, destWrite.
  set (d0 := match ResponseWriter.sent d with
             | Some _ => d
             | None => ResponseWriter.commit 200 d
             end).
  assert (Hr' : room (ResponseWriter.conn d0) = None).
  { unfold d0. by destruct (ResponseWriter.sent d). }
  rewrite Hr'. simpl. rewrite Nat.eqb_refl.
  match goal with |- context [multiWrite _ _ _ (w, ?d1)] => set (d' := d1) end.
  destruct (sinks_write_ok Inv sinks p w d' Ha Hi) as (w' & E & Hi' & Hw).
  exists w', d'. rewrite E. split; [reflexivity|].
  split; [|split; [|split; [exact Hi' | exact Hw]]].
  - unfold d', d0. by destruct (ResponseWriter.sent d).
  - unfold d', d0. by destruct (ResponseWriter.sent d).
Qed.

Lemma Copy_all_ok Inv (sinks : list Ref) cs w d :
  room (ResponseWriter.conn d) = None → accepting Inv sinks → Inv w →
  ∃ w' d' n,
    Copy (multiWrite writeTarget (fanOut sinks)) cs (w, d)
      = ((w', d'), ([], (n, None)))
    ∧ ResponseWriter.conn d'
      = mkDest (written (ResponseWriter.conn d) ++ concat cs) None
          (closed (ResponseWriter.conn d))
    ∧ ResponseWriter.header d' = ResponseWriter.header d
    ∧ (sinks = [] → w' = w).
Proof.
  intros Hr Ha. revert w d Hr.
  induction cs as [|p cs IH]; intros w d Hr Hi; cbn [Copy].
  - exists w, d, 0%nat. simpl. rewrite app_nil_r. split; [reflexivity|].
    split; [|done]. destruct (ResponseWriter.conn d); simpl in *. by subst.
  - destruct (0 <? length p)%nat eqn:Ep.
    + destruct (fanOut_write_ok Inv sinks p w d Hr Ha Hi)
        as (w1 & d1 & E1 & C1 & H1 & Hi1 & Hw1).
      rewrite E1. rewrite Nat.eqb_refl.
      destruct (IH w1 d1) as (w' & d' & n & E & C & Hh & Hw); [by rewrite C1|done|].
      rewrite E. exists w', d', (length p + n)%nat. split; [reflexivity|].
      split; [|split].
      * rewrite C, C1. simpl. by rewrite <- app_assoc.
      * by rewrite Hh, H1.
      * intros Hs. rewrite (Hw Hs). by apply Hw1.
    + apply Nat.ltb_ge in Ep. assert (p = []) as -> by (destruct p; simpl in *; [done|lia]).
      change (concat ([] :: cs)) with (concat cs). by apply IH.
Qed.



End Delivery.
End DeliveryFacts.

(** ** Merged headers, and [save.Body] *)

Module MergeFacts.
Import GoHttp Proxy Spec Derived Scenario HeaderFacts.

Lemma case_twice (b : bool) c :
  (if b then toUpper (if b then toUpper c else toLower c)
   else toLower (if b then toUpper c else toLower c))
  = (if b then toUpper c else toLower c)
  ∧ Ascii.eqb (if b then toUpper c else toLower c) "-" = Ascii.eqb c "-".
Proof.
  destruct b; destruct c as [[|] [|] [|] [|] [|] [|] [|] [|]];
    vm_compute; by split.
Qed.

Lemma case_valid (b : bool) c :
  validHeaderFieldByte (if b then toUpper c else toLower c)
    = validHeaderFieldByte c.
Proof.
  destruct b; destruct c as [[|] [|] [|] [|] [|] [|] [|] [|]];
    vm_compute; reflexivity.
Qed.

Lemma canonLoop_valid b k :
  validHeaderField (canonLoop b k) = validHeaderField k.
Proof.
  revert b. induction k as [|c k IH]; intros b; [reflexivity|].
  cbn [canonLoop validHeaderField]. by rewrite case_valid, IH.
Qed.

Lemma canonLoop_twice b k : canonLoop b (canonLoop b k) = canonLoop b k.
Proof.
  revert b. induction k as [|c k IH]; intros b; [reflexivity|].
  cbn [canonLoop]. destruct (case_twice b c) as [-> ->]. by rewrite IH.
Qed.

(** Canonical form is a fixed point of [CanonicalMIMEHeaderKey]. *)
Lemma canonical_idempotent k :
  CanonicalMIMEHeaderKey (CanonicalMIMEHeaderKey k) = CanonicalMIMEHeaderKey k.
Proof.
  unfold CanonicalMIMEHeaderKey.
  destruct (validHeaderField k) eqn:E.
  - by rewrite canonLoop_valid, E, canonLoop_twice.
  - by rewrite E.
Qed.

Lemma Values_Add k v (h : Header) K :
  Values K (Add k v h) =
    if decide (CanonicalMIMEHeaderKey k = K) then Values K h ++ [v] else Values K h.
Proof.
  unfold Add, Values.
  destruct (decide (CanonicalMIMEHeaderKey k = K)) as [<-|Hne].
  - by rewrite lookup_insert_eq.
  - by rewrite lookup_insert_ne.
Qed.

Lemma Values_addValues k vv (h : Header) K :
  Values K (addValues k vv h) =
    if decide (CanonicalMIMEHeaderKey k = K) then Values K h ++ vv else Values K h.
Proof.
  revert h. induction vv as [|v vv IH]; intros h; cbn [addValues].
  - destruct (decide _); by rewrite ?app_nil_r.
  - rewrite IH, Values_Add. destruct (decide _); [|done]. by rewrite <- app_assoc.
Qed.

Lemma Values_addLoop kvs (h : Header) K :
  Values K (addLoop kvs h) =
    Values K h
    ++ concat (snd <$> filter (λ kv, CanonicalMIMEHeaderKey kv.1 = K) kvs).
Proof.
  revert h. induction kvs as [|[k vv] kvs IH]; intros h; cbn [addLoop].
  - by rewrite app_nil_r.
  - rewrite IH, Values_addValues, filter_cons. simpl.
    destruct (decide (CanonicalMIMEHeaderKey k = K)); simpl; [|done].
    by rewrite <- app_assoc.
Qed.

Lemma delLoop_clears ks (dst : Header) :
  ks ≡ₚ (map_to_list dst).*1 → canonicalKeys dst → delLoop ks dst = ∅.
Proof.
  intros Hks Hd. apply map_eq. intros j. rewrite lookup_empty, delLoop_lookup.
  - destruct (decide (j ∈ ks)) as [|Hj]; [done|].
    apply eq_None_not_Some. intros [x Hx].
    apply Hj. rewrite Hks. apply list_elem_of_fmap. exists (j, x).
    split; [done|]. by apply elem_of_map_to_list.
  - intros k'. rewrite Hks. intros [[k1 x] [-> Hx]]%list_elem_of_fmap.
    apply Hd. exists x. by apply elem_of_map_to_list.
Qed.

(** X9.  Whatever keys the source has, [copyHeader] files its values under
    the names [CanonicalMIMEHeaderKey] gives them: the destination ends
    up, under a key [K], with the values of all source keys that
    canonicalise to [K], in the order the loop meets them.  Source keys
    made of token bytes that differ in case only are merged; a key that
    holds a space or another byte that is not valid in a field name is
    its own canonical name and is merged with no other. *)
Theorem copyHeader_merges_by_canonical_key ks kvs (dst : Header) K :
  ks ≡ₚ (map_to_list dst).*1 → canonicalKeys dst →
  Values K (copyHeaderIn ks kvs dst)
    = concat (snd <$> filter (λ kv, CanonicalMIMEHeaderKey kv.1 = K) kvs).
Proof.
  intros Hks Hd. unfold copyHeaderIn.
  rewrite (delLoop_clears ks dst Hks Hd), Values_addLoop.
  unfold Values at 1. by rewrite lookup_empty.
Qed.

Lemma addValues_keys k vv (h : Header) K :
  is_Some (addValues k vv h !! K) →
  is_Some (h !! K) ∨ K = CanonicalMIMEHeaderKey k.
Proof.
  revert h. induction vv as [|v vv IH]; intros h; cbn [addValues]; [by left|].
  intros [Hs| ->]%IH; [|by right]. unfold Add in Hs.
  destruct (decide (CanonicalMIMEHeaderKey k = K)) as [<-|Hne]; [by right|].
  rewrite lookup_insert_ne in Hs by done. by left.
Qed.

Lemma addLoop_canonical kvs (h : Header) :
  canonicalKeys h → canonicalKeys (addLoop kvs h).
Proof.
  revert h. induction kvs as [|[k vv] kvs IH]; intros h Hh; cbn [addLoop]; [done|].
  apply IH. intros K [Hs| ->]%addValues_keys; [by apply Hh|].
  apply canonical_idempotent.
Qed.

(** X10.  [copyHeader] never leaves a key in the destination that
    [CanonicalMIMEHeaderKey] would change, if there was none before: not
    even when the source has such keys.  (A key that is no field name,
    such as one with a space in it, is left as it is by
    [CanonicalMIMEHeaderKey] and is filed as it is spelled.) *)
Theorem copyHeader_result_canonical ks kvs (dst : Header) :
  ks ≡ₚ (map_to_list dst).*1 → canonicalKeys dst →
  canonicalKeys (copyHeaderIn ks kvs dst).
Proof.
  intros Hks Hd. unfold copyHeaderIn. rewrite (delLoop_clears ks dst Hks Hd).
  apply addLoop_canonical. intros K [x Hx]. by rewrite lookup_empty in Hx.
Qed.

End MergeFacts.

Module BodyFacts.
Import GoHttp GoIo Proxy Spec Derived Sim Scenario IoFacts PipelineFacts DeliveryFacts.

Section Body.
Context {W File : Type} `{GoOs.OS W File}.

End Body.
End BodyFacts.

(** ** The properties at work *)

Module CaseFacts.
Import GoHttp GoIo Proxy Spec Derived Sim Scenario Cases.
Import HeaderFacts PathFacts StampFacts StemFacts ExtFacts ClientFacts.
Import RelayFacts DeliveryFacts MergeFacts BodyFacts.

Lemma clock_wellFormed : wellFormed clock.
Proof. unfold wellFormed, clock. simpl. lia. Defined.

Lemma later_wellFormed : wellFormed later.
Proof. unfold wellFormed, later. simpl. lia. Defined.

Lemma resolvers_share_stem_witness :
  ∃ s rest a,
    s ≠ "" ∧ firstChar s ≠ Some "/"%char ∧ lastChar s ≠ Some "/"%char
    ∧ ArchiveFile htmlExt initial readme =
        Ok ("archive" +:+ PS +:+ "example.com" +:+ PS +:+ s +:+ rest)
    ∧ ClientFile initial clock readme =
        Ok ("client" +:+ PS +:+ a +:+ PS +:+ "example.com" +:+ PS +:+ s
            +:+ PS +:+ now clock).
Proof.
  exact (resolvers_share_stem htmlExt initial clock readme (site "/docs/readme")
           eq_refl).
Defined.

Lemma root_path_is_index_witness :
  ArchiveFile htmlExt initial rootPage = Ok "archive/example.com/index.html".
Proof.
  destruct (root_path_is_index htmlExt initial clock rootPage (site "///") 3
              eq_refl eq_refl) as [E _].
  rewrite E. reflexivity.
Defined.

Lemma extension_is_kept_witness :
  ArchiveFile htmlExt initial logo = Ok "archive/example.com/img/logo.png".
Proof.
  rewrite (extension_is_kept htmlExt initial logo (site "/img/logo.png")
             "img/logo" "png").
  - reflexivity.
  - reflexivity.
  - reflexivity.
  - discriminate.
  - reflexivity.
Defined.

Lemma gzip_appends_gz_witness :
  ∃ p, ArchiveFile htmlExt initial (page None) = Ok p
       ∧ ArchiveFile htmlExt initial gzPage = Ok (p +:+ ".gz").
Proof.
  apply (gzip_appends_gz htmlExt initial gzPage (page None) (site "/") (site "/"));
    try reflexivity.
  vm_compute. discriminate.
Defined.

Lemma now_length_witness : String.length (now clock) = 29%nat.
Proof. exact (now_length clock clock_wellFormed). Defined.


Lemma ClientFile_distinct_times_witness :
  "client/10.0.0.7/example.com/a/b/20261030-123456-000000789.bin"
  ≠ "client/10.0.0.7/example.com/a/b/20261030-123457-000000005.bin".
Proof.
  apply (ClientFile_distinct_times initial clock later ipv4Client
           _ _ clock_wellFormed later_wellFormed).
  - discriminate.
  - reflexivity.
  - reflexivity.
Defined.

Lemma ClientFile_layout_witness :
  ClientFile initial clock ipv4Client =
    Ok ("client" +:+ PS +:+ "10.0.0.7" +:+ PS +:+ "example.com" +:+ PS
        +:+ "a/b" +:+ PS +:+ now clock).
Proof.
  apply (ClientFile_layout initial clock ipv4Client
           (forwarded "/a/b" "10.0.0.7:51234") (site "/a/b") "10.0.0.7" "51234");
    reflexivity.
Defined.

Lemma copyHeader_merges_by_canonical_key_witness :
  Values "X-A" (copyHeaderIn (map fst (map_to_list dstCanon)) twoSpellings dstCanon)
    = ["1"; "2"; "3"].
Proof.
  rewrite (copyHeader_merges_by_canonical_key (map fst (map_to_list dstCanon))
             twoSpellings dstCanon "X-A").
  - reflexivity.
  - reflexivity.
  - apply canonicalKeys_singleton. reflexivity.
Defined.

Lemma copyHeader_result_canonical_witness :
  is_Some (copyHeaderIn (map fst (map_to_list dstCanon)) twoSpellings dstCanon
             !! "X-A")
  ∧ CanonicalMIMEHeaderKey "X-A" = "X-A".
Proof.
  assert (H : is_Some (copyHeaderIn (map fst (map_to_list dstCanon)) twoSpellings
                         dstCanon !! "X-A"))
    by (exists ["1"; "2"; "3"]; reflexivity).
  split; [exact H|].
  apply (copyHeader_result_canonical (map fst (map_to_list dstCanon))
           twoSpellings dstCanon).
  - reflexivity.
  - apply canonicalKeys_singleton. reflexivity.
  - exact H.
Defined.

(** A key with a space in it is not changed by [CanonicalMIMEHeaderKey]:
    it is filed as it is spelled, and its two spellings are not merged. *)
Example copyHeader_keeps_spaced_keys :
  CanonicalMIMEHeaderKey "x a" = "x a"
  ∧ CanonicalMIMEHeaderKey "a@b" = "a@b"
  ∧ CanonicalMIMEHeaderKey "x-a" = "X-A"
  ∧ Values "x a" (copyHeaderIn (map fst (map_to_list dstCanon)) spacedKeys dstCanon)
    = ["1"]
  ∧ Values "X A" (copyHeaderIn (map fst (map_to_list dstCanon)) spacedKeys dstCanon)
    = ["2"]
  ∧ Values "X a" (copyHeaderIn (map fst (map_to_list dstCanon)) spacedKeys dstCanon)
    = [].
Proof. vm_compute. repeat split. Qed.

Lemma sinkReady_accepting : accepting (sinkReady 0) [0%nat].
Proof.
  intros s p w Hs (d & Hd & Hr).
  apply list_elem_of_singleton in Hs as ->.
  unfold sinkWrite, world_sinks, write. rewrite Hd.
  unfold destWrite. rewrite Hr.
  eexists. split; [reflexivity|].
  exists (mkDest (written d ++ p) None (closed d)). split; [|reflexivity].
  simpl. apply list_lookup_insert_eq. by apply lookup_lt_Some in Hd.
Defined.




(** In a directory that refuses the file, the sink of [Body] is the
    [nil] file; where the file can be made, it is the open, empty file. *)
Example Body_open_refused :
  (Save.Body (File:=nat) htmlExt initial dirname
     (response {[ "Content-Type" := ["text/html"] ]} None
        (Some (forwarded "/index.html.head" "10.0.0.7:51234")))
     readOnly).2
    = Ok (Some None).
Proof. vm_compute. reflexivity. Qed.

Example Body_opened :
  let '(w, r) := Save.Body (File:=nat) htmlExt initial dirname (page None) Sim.empty in
  r = Ok (Some (Some 0%nat)) ∧ heap w = [newDest None].
Proof. vm_compute. by split. Qed.


(** A Writer that spoils the status and the headers of the response does
    not change what the client is sent. *)
Example spoiled_response_is_not_sent :
  let '(x, o) := intercept spoiled (start (Some hello)) in
  o = Ok tt
  ∧ Response.StatusCode (res x) = 500%Z
  ∧ ResponseWriter.sent (dst x)
    = Some (200%Z, {[ "Content-Type" := ["text/html"] ]}).
Proof. vm_compute. repeat split. Qed.

End CaseFacts.
